(** * csteg: LSB steganography in PNG pixel data (src/main.c)

    A shallow embedding of the embedding and extraction code of
    [write_data] and [read_data], together with [generate_signature].

    The PNG container (libpng), the command line and the file system are
    outside the model: [read_png_file] is represented by the picture it
    leaves in the globals [width], [height], [color_type] and
    [row_pointers]; the data file by the bytes [fread] delivers.

    Machine integers are mathematical integers with the wrap-around of
    each C type written out where the source computes in that type
    ([int] and [uint32_t] of 32 bits, [size_t] of 64 bits).  Memory that
    [malloc] returns has contents the program does not control; they
    are a parameter of [read_data].  Allocation is taken to succeed. *)

From Stdlib Require Import ZArith Lia List.
From stdpp Require Import base option list.

Local Open Scope Z_scope.

(** ** C integer types *)

Module CInt.

(** [uint8_t], [png_byte], and [char] seen through its unsigned value. *)
Definition wrap8 (z : Z) : Z := z mod 2 ^ 8.

(** [uint32_t], which is [unsigned int]. *)
Definition wrap32 (z : Z) : Z := z mod 2 ^ 32.

(** [size_t] (64 bits). *)
Definition wrap64 (z : Z) : Z := z mod 2 ^ 64.

(** [int]: the two's complement value a 32-bit computation leaves. *)
Definition int32 (z : Z) : Z := (z + 2 ^ 31) mod 2 ^ 32 - 2 ^ 31.

(** The values of an 8-bit sample or character. *)
Definition is_byte (z : Z) : Prop := 0 <= z < 256.

End CInt.
Export CInt.

(** ** Outcomes of a run

    [Done] is normal completion.  [Abort] is the call of [abort_msg] in
    [write_data], with the two byte counts of its message and the pixel
    rows as they are in memory at that moment.  [Undefined] is an access
    outside an allocated object (or a division by zero), for which C
    defines no behaviour. *)

Inductive outcome (A : Type) : Type :=
| Done (a : A)
| Abort (required free : Z) (mem : list (list Z))
| Undefined.
Arguments Done {A} a.
Arguments Abort {A} required free mem.
Arguments Undefined {A}.

#[global] Instance outcome_ret : MRet outcome := @Done.
#[global] Instance outcome_bind : MBind outcome := λ A B f m,
  match m with
  | Done a => f a
  | Abort r f' mem => Abort r f' mem
  | Undefined => Undefined
  end.
#[global] Instance outcome_fmap : FMap outcome := λ A B f m,
  match m with
  | Done a => Done (f a)
  | Abort r f' mem => Abort r f' mem
  | Undefined => Undefined
  end.

Definition from_option {A} (o : option A) : outcome A :=
  match o with Some a => Done a | None => Undefined end.

(** ** Loops

    Every loop of the codec has the shape
    [for (i = start; i < stop; i += 2) body], or is the equivalent
    [while].  Such a loop runs its body for
    [i = start, start + 2, ...] as long as [i < stop], which is
    [trip_count start stop] times, and the body never changes [i]. *)

Fixpoint for_steps {St : Type} (n : nat) (i : Z)
    (body : Z → St → outcome St) (s : St) : outcome St :=
  match n with
  | O => Done s
  | S n' => s' ← body i s; for_steps n' (i + 2) body s'
  end.

Definition trip_count (start stop : Z) : nat :=
  Z.to_nat ((stop - start + 1) / 2).

Definition for_loop {St : Type} (start stop : Z)
    (body : Z → St → outcome St) (s : St) : outcome St :=
  for_steps (trip_count start stop) start body s.

(** ** The picture in memory *)

Inductive color : Type := PNG_COLOR_TYPE_RGB | PNG_COLOR_TYPE_RGBA.

(** The globals set by [read_png_file].  [row_pointers] is the array of
    rows, each row the array of its samples. *)
Record png : Type := {
  width : Z;
  height : Z;
  color_type : color;
  row_pointers : list (list Z)
}.

(** Samples per pixel: the factor in [x*4] and [x*3]. *)
Definition pixel_stride (c : color) : Z :=
  match c with
  | PNG_COLOR_TYPE_RGBA => 4
  | PNG_COLOR_TYPE_RGB => 3
  end.

(** What [read_png_file] establishes for an 8-bit RGB or RGBA picture:
    [height] rows of [width] pixels, every sample a byte, and pixel data
    that fits in the address space. *)
Record png_ok (img : png) : Prop := {
  ok_width : 0 < width img;
  ok_height : 0 < height img;
  ok_rows : Z.of_nat (length (row_pointers img)) = height img;
  ok_rowbytes :
    Forall (λ row, Z.of_nat (length row) = width img * pixel_stride (color_type img))
           (row_pointers img);
  ok_samples : Forall (Forall is_byte) (row_pointers img);
  ok_memory : width img * height img * pixel_stride (color_type img) < 2 ^ 63
}.

(** [row_pointers[y][idx]] as an rvalue and as the target of a store. *)
Definition sample (rows : list (list Z)) (r c : nat) : option Z :=
  row ← rows !! r; row !! c.

Definition load (rows : list (list Z)) (y idx : Z) : option Z :=
  sample rows (Z.to_nat y) (Z.to_nat idx).

Definition store (rows : list (list Z)) (y idx v : Z) : list (list Z) :=
  alter (λ row, <[Z.to_nat idx := v]> row) (Z.to_nat y) rows.

(** The address lines shared by all six loops:
<<
    byte_offset = i / 6;
    color_offset = (i / 2) % 3;
    x = byte_offset % width;
    y = byte_offset / width;
>>
    [i] is the bit position in the embedded stream. *)
Definition locate (i w : Z) : Z * Z * Z :=
  let byte_offset := i / 6 in
  let color_offset := (i / 2) mod 3 in
  let x := byte_offset mod w in
  let y := byte_offset / w in
  (y, x, color_offset).

(** [pixel = &(row_pointers[y][x*4])] or [&(row_pointers[y][x*3])], then
    [pixel[color_offset]]: the row and the index in the row. *)
Definition sample_address (img : png) (i : Z) : option (Z * Z) :=
  if width img <=? 0 then None
  else
    let '(y, x, color_offset) := locate i (width img) in
    Some (y, x * pixel_stride (color_type img) + color_offset).

(** ** generate_signature *)

(** The number of bits used to store sizes in the signature. *)
Definition SIG_SIZE_BITS : Z := 32.

(** [strlen] of a C string given by the characters in memory; the end of
    the list stands for the terminating NUL. *)
Fixpoint strlen (s : list Z) : Z :=
  match s with
  | [] => 0
  | c :: s' => if c =? 0 then 0 else 1 + strlen s'
  end.

(** [(filename_length & (0xFF << (i * 8))) >> (i * 8)] stored in a
    [uint8_t].  The mask is computed in [int] and converted to the type
    of the other operand: [size_t] for [filename_length], [uint32_t] for
    [file_size]. *)
Definition sig_byte_size_t (filename_length i : Z) : Z :=
  let mask := wrap64 (int32 (Z.shiftl 255 (i * 8))) in
  wrap8 (Z.shiftr (Z.land filename_length mask) (i * 8)).

Definition sig_byte_uint32 (file_size i : Z) : Z :=
  let mask := wrap32 (int32 (Z.shiftl 255 (i * 8))) in
  wrap8 (Z.shiftr (Z.land file_size mask) (i * 8)).

(** The two counting loops start at [SIG_SIZE_BITS / 8 - 1] and run
    [i = 3, 2, 1, 0] (the unsigned [i--] at 0 wraps and ends them).  The
    result is the signature and its length. *)
Definition generate_signature (filename : list Z) (file_size : Z) : list Z * Z :=
  let filename_length := strlen filename in
  let sig_length := (SIG_SIZE_BITS / 8) * 2 + filename_length in
  (map (sig_byte_size_t filename_length) [3; 2; 1; 0]
     ++ map (sig_byte_uint32 file_size) [3; 2; 1; 0]
     ++ map wrap8 (take (Z.to_nat filename_length) filename),
   sig_length).

(** ** write_data *)

(** [data_chunk = (data_byte & (0x3 << bit_offset)) >> bit_offset] *)
Definition data_chunk (data_byte bit_offset : Z) : Z :=
  Z.shiftr (Z.land data_byte (Z.shiftl 3 bit_offset)) bit_offset.

(** [pixel[color_offset] &= 0xFC; pixel[color_offset] |= data_chunk;] *)
Definition embed_chunk (img : png) (i chunk : Z) (rows : list (list Z))
    : outcome (list (list Z)) :=
  '(y, idx) ← from_option (sample_address img i);
  p ← from_option (load rows y idx);
  Done (store rows y idx (Z.lor (Z.land p 252) chunk)).

(** The variables the two writing loops share: the pixel rows, the
    current [data_byte], and what is left to read of the data file. *)
Record wstate : Type := {
  w_rows : list (list Z);
  w_data_byte : Z;
  w_file : list Z
}.

(** [fread(&data_byte, 1, 1, file_ptr)]: at end of file nothing is
    stored. *)
Definition fread (st : wstate) : wstate :=
  match w_file st with
  | [] => st
  | b :: rest => {| w_rows := w_rows st; w_data_byte := b; w_file := rest |}
  end.

Definition signature_body (img : png) (signature : list Z) (i : Z) (st : wstate)
    : outcome wstate :=
  let bit_offset := 6 - i mod 8 in
  b ← from_option (signature !! Z.to_nat (i / 8));
  rows ← embed_chunk img i (data_chunk b bit_offset) (w_rows st);
  Done {| w_rows := rows; w_data_byte := b; w_file := w_file st |}.

Definition data_body (img : png) (i : Z) (st : wstate) : outcome wstate :=
  let bit_offset := 6 - i mod 8 in
  rows ← embed_chunk img i (data_chunk (w_data_byte st) bit_offset) (w_rows st);
  let st' := {| w_rows := rows; w_data_byte := w_data_byte st; w_file := w_file st |} in
  Done (if bit_offset =? 0 then fread st' else st').

(** [write_data] from the picture [read_png_file] has loaded to the
    picture handed to [write_png_file]; [file] is the content of the
    data file, [data_filename] its name as given on the command line.
    [size] is a [uint32_t], so [size * 8] is computed in 32 bits; the
    sum is a [size_t].  [data_byte] has no value before the first loop
    assigns it; the model starts it at 0. *)
Definition write_data (img : png) (data_filename file : list Z) : outcome png :=
  let size := wrap32 (Z.of_nat (length file)) in
  let '(signature, sig_size) := generate_signature data_filename size in
  let max_data_bits := wrap64 (width img * height img * 6) in
  let required_data_bits := wrap64 (sig_size * 8 + wrap32 (size * 8)) in
  if max_data_bits <? required_data_bits then
    Abort (required_data_bits / 8) (max_data_bits / 8) (row_pointers img)
  else
    st ← for_loop 0 (sig_size * 8) (signature_body img signature)
           {| w_rows := row_pointers img; w_data_byte := 0; w_file := file |};
    st ← for_loop (sig_size * 8) required_data_bits (data_body img) (fread st);
    Done {| width := width img; height := height img;
            color_type := color_type img; row_pointers := w_rows st |}.

(** ** read_data *)

(** [pixel[color_offset] & 0x3] *)
Definition read_chunk (img : png) (i : Z) : outcome Z :=
  '(y, idx) ← from_option (sample_address img i);
  p ← from_option (load (row_pointers img) y idx);
  Done (Z.land p 3).

(** The body of the two header loops, [end_pos] being [SIG_SIZE_BITS]
    and [SIG_SIZE_BITS * 2]:
    [bit_offset = (end_pos - 2) - i] and
    [length |= ((pixel[color_offset] & 0x3) << bit_offset)].
    The shift is an [int]; it is converted to [uint32_t] for the [|=]. *)
Definition size_body (img : png) (end_pos i acc : Z) : outcome Z :=
  let bit_offset := (end_pos - 2) - i in
  c ← read_chunk img i;
  Done (Z.lor acc (wrap32 (int32 (Z.shiftl c bit_offset)))).

(** The body of the file name loop and of the data loop:
    [buf[pos] |= ((pixel[color_offset] & 0x3) << bit_offset)] with
    [bit_offset = 6 - (i % 8)], and [pos++] when [bit_offset == 0]. *)
Definition byte_body (img : png) (i : Z) (st : list Z * Z) : outcome (list Z * Z) :=
  let bit_offset := 6 - i mod 8 in
  c ← read_chunk img i;
  old ← from_option (st.1 !! Z.to_nat st.2);
  Done (<[Z.to_nat st.2 := wrap8 (Z.lor old (Z.shiftl c bit_offset))]> st.1,
        if bit_offset =? 0 then st.2 + 1 else st.2).

(** [malloc(n)]: [n] bytes whose contents are whatever the allocator
    hands out, given here by [mem]. *)
Definition malloc (mem : nat → Z) (n : Z) : list Z :=
  map mem (seq 0 (Z.to_nat n)).

(** [read_data] up to the two buffers it has filled: [data_filename]
    ([data_filename_length] bytes) and [data] ([data_file_size] bytes,
    all of them passed to [fwrite]).  The positions after the header are
    computed in [uint32_t].  What [access] and [fopen] make of
    [data_filename], which gets no terminating NUL, is not modelled. *)
Definition read_data (img : png) (name_mem data_mem : nat → Z)
    : outcome (list Z * list Z) :=
  data_filename_length ←
    for_loop 0 SIG_SIZE_BITS (size_body img SIG_SIZE_BITS) 0;
  data_file_size ←
    for_loop SIG_SIZE_BITS (SIG_SIZE_BITS * 2) (size_body img (SIG_SIZE_BITS * 2)) 0;
  let data_filename := malloc name_mem data_filename_length in
  let end_pos := wrap32 (SIG_SIZE_BITS * 2 + data_filename_length * 8) in
  name ← for_loop (SIG_SIZE_BITS * 2) end_pos (byte_body img) (data_filename, 0);
  let data := malloc data_mem data_file_size in
  let start_pos := wrap32 (SIG_SIZE_BITS * 2 + data_filename_length * 8) in
  let end_pos :=
    wrap32 (SIG_SIZE_BITS * 2 + data_filename_length * 8 + data_file_size * 8) in
  payload ← for_loop start_pos end_pos (byte_body img) (data, 0);
  Done (name.1, payload.1).

(** ** Pictures and memory for examples *)

(** A picture of [w] by [h] pixels with every sample equal to [v]. *)
Definition blank (w h : nat) (c : color) (v : Z) : png :=
  {| width := Z.of_nat w; height := Z.of_nat h; color_type := c;
     row_pointers := repeat (repeat v (w * Z.to_nat (pixel_stride c))) h |}.

(** Memory in which every byte is 0. *)
Definition zeroed : nat → Z := λ _, 0.

(** * Notions used to state and prove the properties *)

(** Two runs end the same way, with related results. *)
Definition outcome_rel {A B} (R : A → B → Prop) (a : outcome A) (b : outcome B) : Prop :=
  match a, b with
  | Done x, Done y => R x y
  | Abort r f m, Abort r' f' m' => r = r' ∧ f = f' ∧ m = m'
  | Undefined, Undefined => True
  | _, _ => False
  end.

(** One step of embedding the stream [stream]: the chunk at bit position
    [i] is taken from byte [i / 8]. *)
Definition stream_body (img : png) (stream : list Z) (i : Z) (rows : list (list Z))
    : outcome (list (list Z)) :=
  b ← from_option (stream !! Z.to_nat (i / 8));
  embed_chunk img i (data_chunk b (6 - i mod 8)) rows.

(** The bytes [write_data] walks through, the bit count it compares with
    the capacity, and the number of chunks its two loops embed. *)
Definition embedded_stream (data_filename file : list Z) : list Z :=
  (generate_signature data_filename (wrap32 (Z.of_nat (length file)))).1 ++ file.

Definition required_data_bits (data_filename file : list Z) : Z :=
  let size := wrap32 (Z.of_nat (length file)) in
  wrap64 ((generate_signature data_filename size).2 * 8 + wrap32 (size * 8)).

Definition max_data_bits (img : png) : Z := wrap64 (width img * height img * 6).

Definition chunks_written (data_filename file : list Z) : nat :=
  let sig_size := (generate_signature data_filename (wrap32 (Z.of_nat (length file)))).2 in
  (trip_count 0 (sig_size * 8)
   + trip_count (sig_size * 8) (required_data_bits data_filename file))%nat.

Definition with_rows (img : png) (rows : list (list Z)) : png :=
  {| width := width img; height := height img;
     color_type := color_type img; row_pointers := rows |}.

(** ** The layout in the words of the specification *)

(** Byte [t / 8] of [v], counted from the least significant one. *)
Definition byte_at (v t : Z) : Z := (v / 2 ^ t) mod 256.

(** Four bytes, most significant first. *)
Definition be32 (v : Z) : list Z :=
  [byte_at v 24; byte_at v 16; byte_at v 8; byte_at v 0].

(** Chunk [m] of a byte: chunk 0 is bits 7-6, chunk 1 bits 5-4, chunk 2
    bits 3-2, chunk 3 bits 1-0. *)
Definition chunk_of_byte (b m : Z) : Z := (b / 4 ^ (3 - m)) mod 4.

(** Length fields, file name, payload. *)
Definition serialized (filename payload : list Z) : list Z :=
  be32 (Z.of_nat (length filename)) ++ be32 (Z.of_nat (length payload))
    ++ filename ++ payload.

(** Chunk [k] of a byte stream, when the stream is that long. *)
Definition chunk_of_stream (stream : list Z) (k : Z) : option Z :=
  b ← stream !! Z.to_nat (k / 4); Some (chunk_of_byte b (k mod 4)).

(** ** Relations between pictures, streams and buffers *)

(** [img] carries the first [n] chunks of [stream]: the low pair of the
    sample chunk [k] is addressed to is that chunk. *)
Definition carries (img : png) (stream : list Z) (n : nat) : Prop :=
  ∀ k : nat, (k < n)%nat →
    ∃ b, stream !! Z.to_nat (2 * Z.of_nat k / 8) = Some b
         ∧ read_chunk img (2 * Z.of_nat k)
           = Done (data_chunk b (6 - (2 * Z.of_nat k) mod 8)).

(** What [malloc]ed memory turns into when a byte loop has or-ed the
    bytes [bytes] into it. *)
Definition or_into (olds bytes : list Z) : list Z :=
  zip_with (λ o b, Z.lor (wrap8 o) b) olds bytes.

(** A file name as [strlen] and the copy loop see it whole: bytes, none
    of them NUL. *)
Definition c_string (filename : list Z) : Prop :=
  Forall (λ c, is_byte c ∧ c ≠ 0) filename.

(** The whole stream is shorter than 2^32 bits, so that no 32-bit
    product or sum in [write_data] and [read_data] wraps. *)
Definition fits_32 (filename payload : list Z) : Prop :=
  (8 + Z.of_nat (length filename) + Z.of_nat (length payload)) * 8 < 2 ^ 32.

(** Index [c] of a row is a sample the codec may address: in an RGBA row
    every index except those of the fourth channel. *)
Definition usable_sample (ct : color) (c : nat) : Prop :=
  ct = PNG_COLOR_TYPE_RGBA → Z.of_nat c mod 4 ≠ 3.

Definition low2 (o : option Z) : option Z := (λ p, Z.land p 3) <$> o.

(** Two pictures of the same dimensions and colour type whose usable
    samples have the same two low bits (and lie at the same places). *)
Definition agree_low2 (img1 img2 : png) : Prop :=
  width img1 = width img2
  ∧ height img1 = height img2
  ∧ color_type img1 = color_type img2
  ∧ ∀ r c : nat, usable_sample (color_type img1) c →
      low2 (sample (row_pointers img1) r c) = low2 (sample (row_pointers img2) r c).

(** ** Concrete inputs *)

(** A picture and a run used to instantiate the statements below. *)
Definition rgba_4x4 : png := blank 4 4 PNG_COLOR_TYPE_RGBA 200.
Definition name_a : list Z := [97].
Definition payload_hi : list Z := [104; 105].

Definition rgb_4x4 : png := blank 4 4 PNG_COLOR_TYPE_RGB 0.

(** Memory in which every byte is 4. *)
Definition stale : nat → Z := λ _, 4.

(** The 4x4 RGB picture whose samples are all 200, and what
    [write_data] makes of a picture when it embeds the payload "hi"
    under the file name "a". *)
Definition rgb_4x4_light : png := blank 4 4 PNG_COLOR_TYPE_RGB 200.

Definition embedded_a_hi (img : png) : png :=
  match write_data img name_a payload_hi with
  | Done img' => img'
  | _ => img
  end.

(** A shorter stream: the payload "x" under the file name "b". *)
Definition name_b : list Z := [98].
Definition payload_x : list Z := [120].

(** A 4x3 RGB picture (capacity 72 bits) whose header says: file name of
    1 byte, payload of 1 byte. *)
Definition truncated_4x3 : png :=
  {| width := 4; height := 3; color_type := PNG_COLOR_TYPE_RGB;
     row_pointers := [ [0; 0; 0; 0; 0; 0; 0; 0; 0; 0; 0; 0];
                       [0; 0; 0; 1; 0; 0; 0; 0; 0; 0; 0; 0];
                       [0; 0; 0; 0; 0; 0; 0; 1; 0; 0; 0; 0] ] |}.

(** A 4x3 RGB picture whose header says: file name of 1 byte, payload
    of 2^29 bytes; the file name byte is "a". *)
Definition wrapping_4x3 : png :=
  {| width := 4; height := 3; color_type := PNG_COLOR_TYPE_RGB;
     row_pointers := [ [0; 0; 0; 0; 0; 0; 0; 0; 0; 0; 0; 0];
                       [0; 0; 0; 1; 0; 2; 0; 0; 0; 0; 0; 0];
                       [0; 0; 0; 0; 0; 0; 0; 0; 1; 2; 0; 1] ] |}.

(** A data file of 2^29 bytes, each 255. *)
Definition half_gigabyte : list Z := replicate (Z.to_nat 536870912) 255.

(** What [write_data] leaves of [rgb_4x4]: only the nine bytes of the
    signature are embedded. *)
Definition signature_only : outcome png :=
  Eval vm_compute in
    with_rows rgb_4x4 <$>
      for_steps 36 0 (stream_body rgb_4x4 [0; 0; 0; 1; 32; 0; 0; 0; 97])
        (row_pointers rgb_4x4).

(** * The command line and the overwrite question *)

(** ** confirm_file_overwrite

    The loop asks, reads one character with [scanf("%c", &response)] and
    repeats while the character is none of [y], [Y], [n], [N] and does
    not compare equal to [EOF].  [answers] are the characters the
    successive calls of [scanf] deliver (as [char] values, [char] being
    signed: the byte 0xFF is -1); after them the input is at its end,
    where [scanf] stores nothing and [response] keeps its value.
    [response] has no value before the first call; the caller of the
    model supplies what the variable happens to hold. *)

Inductive confirmation : Type :=
| proceeds       (* the function returns *)
| user_exit      (* abort_msg("user exit") *)
| asks_forever.  (* the loop does not end *)

Definition EOF : Z := -1.

(** The condition of the [do ... while]: the codes of [y], [Y], [n], [N]. *)
Definition asks_again (response : Z) : bool :=
  negb (response =? 121) && negb (response =? 89)
  && negb (response =? 110) && negb (response =? 78)
  && negb (response =? EOF).

(** [if (response == 'N' || response == 'n') abort_msg("user exit");] *)
Definition after_loop (response : Z) : confirmation :=
  if (response =? 78) || (response =? 110) then user_exit else proceeds.

Fixpoint confirm_file_overwrite (response : Z) (answers : list Z) : confirmation :=
  match answers with
  | [] => if asks_again response then asks_forever else after_loop response
  | c :: rest =>
      if asks_again c then confirm_file_overwrite c rest else after_loop c
  end.

(** ** main *)

Module Main.

(** What the successive calls of [getopt(argc, argv, "rwfi:d:o:h?")]
    return before -1: an option letter, with [optarg] for [i], [d] and
    [o]; ['?'] is also what [getopt] returns for an unknown option or a
    missing argument. *)
Inductive getopt_result : Type :=
| opt_r
| opt_w
| opt_f
| opt_i (optarg : list Z)
| opt_d (optarg : list Z)
| opt_o (optarg : list Z)
| opt_h
| opt_question.

(** The variables of [main]; a file name that is still [NULL] is [None]. *)
Record flags : Type := {
  read_flag : bool;
  write_flag : bool;
  force_flag : bool;
  png_filename_in : option (list Z);
  png_filename_out : option (list Z);
  data_filename : option (list Z)
}.

(** How [main] ends: [print_usage(); exit(1)], or one of the two calls. *)
Inductive action : Type :=
| usage_exit
| call_read_data (png_in : list Z) (force : bool)
| call_write_data (png_in png_out data : list Z) (force : bool).

Definition initial : flags :=
  {| read_flag := false; write_flag := false; force_flag := false;
     png_filename_in := None; png_filename_out := None; data_filename := None |}.

(** The [switch]; [None] is the [exit(1)] of the cases ['h'] and ['?']. *)
Definition handle (arg : getopt_result) (st : flags) : option flags :=
  match arg with
  | opt_r => Some {| read_flag := true; write_flag := write_flag st;
                     force_flag := force_flag st;
                     png_filename_in := png_filename_in st;
                     png_filename_out := png_filename_out st;
                     data_filename := data_filename st |}
  | opt_w => Some {| read_flag := read_flag st; write_flag := true;
                     force_flag := force_flag st;
                     png_filename_in := png_filename_in st;
                     png_filename_out := png_filename_out st;
                     data_filename := data_filename st |}
  | opt_f => Some {| read_flag := read_flag st; write_flag := write_flag st;
                     force_flag := true;
                     png_filename_in := png_filename_in st;
                     png_filename_out := png_filename_out st;
                     data_filename := data_filename st |}
  | opt_i optarg => Some {| read_flag := read_flag st; write_flag := write_flag st;
                            force_flag := force_flag st;
                            png_filename_in := Some optarg;
                            png_filename_out := png_filename_out st;
                            data_filename := data_filename st |}
  | opt_d optarg => Some {| read_flag := read_flag st; write_flag := write_flag st;
                            force_flag := force_flag st;
                            png_filename_in := png_filename_in st;
                            png_filename_out := png_filename_out st;
                            data_filename := Some optarg |}
  | opt_o optarg => Some {| read_flag := read_flag st; write_flag := write_flag st;
                            force_flag := force_flag st;
                            png_filename_in := png_filename_in st;
                            png_filename_out := Some optarg;
                            data_filename := data_filename st |}
  | opt_h | opt_question => None
  end.

(** The [while] over the results of [getopt]. *)
Fixpoint handle_flags (args : list getopt_result) (st : flags) : option flags :=
  match args with
  | [] => Some st
  | arg :: rest =>
      match handle arg st with
      | Some st' => handle_flags rest st'
      | None => None
      end
  end.

(** A pointer that is still [NULL]. *)
Definition is_null (p : option (list Z)) : bool :=
  match p with None => true | Some _ => false end.

(** "validate input and perform operations".  The calls are reached with
    the pointers they pass tested non-[NULL]. *)
Definition dispatch (st : flags) : action :=
  if read_flag st then
    if is_null (png_filename_in st) || negb (is_null (data_filename st))
       || negb (is_null (png_filename_out st)) || write_flag st
    then usage_exit
    else
      match png_filename_in st with
      | Some png_in => call_read_data png_in (force_flag st)
      | None => usage_exit
      end
  else if write_flag st then
    if is_null (png_filename_in st) || is_null (data_filename st)
       || is_null (png_filename_out st) || read_flag st
    then usage_exit
    else
      match png_filename_in st, png_filename_out st, data_filename st with
      | Some png_in, Some png_out, Some data =>
          call_write_data png_in png_out data (force_flag st)
      | _, _, _ => usage_exit
      end
  else usage_exit.

Definition main (args : list getopt_result) : action :=
  match handle_flags args initial with
  | Some st => dispatch st
  | None => usage_exit
  end.

(** The argument of the last [-i], [-d] or [-o] among [args]. *)
Definition arg_i (arg : getopt_result) : option (list Z) :=
  match arg with opt_i a => Some a | _ => None end.
Definition arg_d (arg : getopt_result) : option (list Z) :=
  match arg with opt_d a => Some a | _ => None end.
Definition arg_o (arg : getopt_result) : option (list Z) :=
  match arg with opt_o a => Some a | _ => None end.

Definition last_arg (sel : getopt_result → option (list Z))
    (args : list getopt_result) (before : option (list Z)) : option (list Z) :=
  fold_left (λ acc arg, match sel arg with Some a => Some a | None => acc end)
            args before.

Definition is_help (arg : getopt_result) : bool :=
  match arg with opt_h | opt_question => true | _ => false end.
Definition is_r (arg : getopt_result) : bool :=
  match arg with opt_r => true | _ => false end.
Definition is_w (arg : getopt_result) : bool :=
  match arg with opt_w => true | _ => false end.
Definition is_f (arg : getopt_result) : bool :=
  match arg with opt_f => true | _ => false end.

End Main.

(** * Lemmas *)

(** The two examples of the specification: a 10x10 RGB picture takes
    "a.txt" with the payload "hi" and gives them back (from zeroed
    memory); with a payload of 70 bytes the run aborts with 83 bytes
    required and 75 free, the picture as it was. *)
Example roundtrip_a_txt :
  (img ← write_data (blank 10 10 PNG_COLOR_TYPE_RGB 200) [97; 46; 116; 120; 116] [104; 105];
   read_data img zeroed zeroed) = Done ([97; 46; 116; 120; 116], [104; 105]).
Proof. vm_compute. reflexivity. Qed.

Example too_large_a_txt :
  write_data (blank 10 10 PNG_COLOR_TYPE_RGB 200) [97; 46; 116; 120; 116] (replicate 70 7)
  = Abort 83 75 (row_pointers (blank 10 10 PNG_COLOR_TYPE_RGB 200)).
Proof. vm_compute. reflexivity. Qed.

(** ** Arithmetic of the C types *)

Section Bits.

Lemma wrap8_byte z : is_byte z → wrap8 z = z.
Proof. unfold is_byte, wrap8. intros H. apply Z.mod_small. lia. Qed.

Lemma wrap8_is_byte z : is_byte (wrap8 z).
Proof. unfold is_byte, wrap8. pose proof (Z.mod_pos_bound z (2 ^ 8)). lia. Qed.

Lemma wrap32_small z : 0 <= z < 2 ^ 32 → wrap32 z = z.
Proof. intros H. apply Z.mod_small. lia. Qed.

Lemma wrap64_small z : 0 <= z < 2 ^ 64 → wrap64 z = z.
Proof. intros H. apply Z.mod_small. lia. Qed.

Lemma wrap32_int32 z : wrap32 (int32 z) = wrap32 z.
Proof.
  unfold wrap32, int32.
  rewrite Zminus_mod, Zmod_mod, <- Zminus_mod.
  f_equal. lia.
Qed.

(** A property checked on every integer below [n] holds below [n]. *)
Lemma forall_below (n : nat) (P : Z → bool) :
  forallb P (map Z.of_nat (seq 0 n)) = true →
  ∀ z, 0 <= z < Z.of_nat n → P z = true.
Proof.
  intros H z Hz. rewrite forallb_forall in H. apply H.
  apply in_map_iff. exists (Z.to_nat z). split; [lia|].
  apply in_seq. lia.
Qed.

Lemma data_chunk_spec b off :
  0 <= off → data_chunk b off = (b / 2 ^ off) mod 4.
Proof.
  intros Hoff. unfold data_chunk.
  rewrite Z.shiftr_land, Z.shiftr_shiftl_l, Z.sub_diag by lia.
  change (Z.shiftl 3 0) with (Z.ones 2).
  rewrite Z.land_ones, Z.shiftr_div_pow2 by lia. reflexivity.
Qed.

Lemma data_chunk_range b off : 0 <= off → 0 <= data_chunk b off < 4.
Proof.
  intros Hoff. rewrite data_chunk_spec by done.
  apply Z.mod_pos_bound. lia.
Qed.

Lemma land3_mod z : Z.land z 3 = z mod 4.
Proof. change 3 with (Z.ones 2). rewrite Z.land_ones by lia. reflexivity. Qed.

Lemma land3_range z : 0 <= Z.land z 3 < 4.
Proof. rewrite land3_mod. apply Z.mod_pos_bound. lia. Qed.

(** The two statements that store a chunk: the low pair becomes the
    chunk, the six bits above it stay. *)
Lemma stored_low p c : 0 <= c < 4 → Z.land (Z.lor (Z.land p 252) c) 3 = c.
Proof.
  intros Hc. rewrite Z.land_lor_distr_l, <- Z.land_assoc.
  change (Z.land 252 3) with 0. rewrite Z.land_0_r, Z.lor_0_l.
  rewrite land3_mod. apply Z.mod_small. lia.
Qed.

Lemma stored_high p c :
  0 <= c < 4 → Z.land (Z.lor (Z.land p 252) c) 252 = Z.land p 252.
Proof.
  intros Hc. rewrite Z.land_lor_distr_l, <- Z.land_assoc.
  change (Z.land 252 252) with 252.
  assert (Z.land c 252 = 0) as ->.
  { assert (c = 0 ∨ c = 1 ∨ c = 2 ∨ c = 3) as [->|[->|[->| ->]]] by lia; reflexivity. }
  apply Z.lor_0_r.
Qed.

Lemma stored_byte p c :
  is_byte p → 0 <= c < 4 →
  is_byte (Z.lor (Z.land p 252) c)
  ∧ Z.shiftr (Z.lor (Z.land p 252) c) 2 = Z.shiftr p 2.
Proof.
  intros Hp Hc.
  pose (P := λ p, forallb (λ c,
    let v := Z.lor (Z.land p 252) c in
    (0 <=? v) && (v <? 256) && (Z.shiftr v 2 =? Z.shiftr p 2))
    (map Z.of_nat (seq 0 4))).
  assert (P p = true) as HP.
  { apply (forall_below 256); [vm_compute; reflexivity | exact Hp]. }
  pose proof (forall_below 4 _ HP c Hc) as H. simpl in H.
  unfold is_byte. lia.
Qed.

Lemma lor_is_byte a b : is_byte a → is_byte b → is_byte (Z.lor a b).
Proof.
  unfold is_byte. intros Ha Hb.
  assert (Z.lor a b = Z.lor a b mod 2 ^ 8) as ->.
  { rewrite <- Z.land_ones, Z.land_lor_distr_l, !Z.land_ones by lia.
    rewrite !Z.mod_small by lia. reflexivity. }
  pose proof (Z.mod_pos_bound (Z.lor a b) (2 ^ 8)). lia.
Qed.

End Bits.

(** ** Loops: composition and simulation *)

Section Loops.
Context {A B : Type}.

Lemma for_steps_app (n m : nat) i (body : Z → A → outcome A) s :
  for_steps (n + m) i body s
  = s' ← for_steps n i body s; for_steps m (i + 2 * Z.of_nat n) body s'.
Proof.
  revert i s. induction n as [|n IH]; intros i s; simpl.
  - unfold mbind, outcome_bind. f_equal. lia.
  - destruct (body i s) as [s1| |]; simpl; [|done..].
    rewrite IH. unfold mbind, outcome_bind.
    destruct (for_steps n (i + 2) body s1); [|done..].
    f_equal. lia.
Qed.

Lemma for_steps_ext (n : nat) i (b1 b2 : Z → A → outcome A) s :
  (∀ (k : nat) s, (k < n)%nat → b1 (i + 2 * Z.of_nat k) s = b2 (i + 2 * Z.of_nat k) s) →
  for_steps n i b1 s = for_steps n i b2 s.
Proof.
  revert i s. induction n as [|n IH]; intros i s Hb; simpl; [done|].
  specialize (Hb 0%nat s ltac:(lia)) as Hb0.
  replace (i + 2 * Z.of_nat 0) with i in Hb0 by lia. rewrite Hb0.
  destruct (b2 i s) as [s1| |]; simpl; [|done..].
  apply IH. intros k s' Hk.
  specialize (Hb (S k) s' ltac:(lia)).
  replace (i + 2 * Z.of_nat (S k)) with (i + 2 + 2 * Z.of_nat k) in Hb by lia.
  exact Hb.
Qed.

(** A relation between the states of two loops that every pair of
    steps preserves holds between their results. *)
Lemma for_steps_rel (R : Z → A → B → Prop) (n : nat) i
    (bA : Z → A → outcome A) (bB : Z → B → outcome B) a b :
  (∀ (k : nat) a b, (k < n)%nat → R (i + 2 * Z.of_nat k) a b →
     outcome_rel (R (i + 2 * Z.of_nat k + 2))
       (bA (i + 2 * Z.of_nat k) a) (bB (i + 2 * Z.of_nat k) b)) →
  R i a b →
  outcome_rel (R (i + 2 * Z.of_nat n)) (for_steps n i bA a) (for_steps n i bB b).
Proof.
  revert i a b. induction n as [|n IH]; intros i a b Hstep HR; simpl.
  - replace (i + 2 * Z.of_nat 0) with i by lia. exact HR.
  - specialize (Hstep 0%nat a b ltac:(lia)) as H0.
    replace (i + 2 * Z.of_nat 0) with i in H0 by lia.
    specialize (H0 HR).
    destruct (bA i a) as [a1| |], (bB i b) as [b1| |]; simpl in *; try done.
    replace (i + 2 * Z.of_nat (S n)) with (i + 2 + 2 * Z.of_nat n) by lia.
    apply IH; [|done].
    intros k a' b' Hk HR'.
    specialize (Hstep (S k) a' b' ltac:(lia)).
    replace (i + 2 * Z.of_nat (S k)) with (i + 2 + 2 * Z.of_nat k) in Hstep by lia.
    exact (Hstep HR').
Qed.

End Loops.

(** [for_loop] obeys the equation of the C loop: test, body, step. *)
Lemma for_loop_unfold {St} start stop (body : Z → St → outcome St) s :
  for_loop start stop body s
  = if start <? stop then s' ← body start s; for_loop (start + 2) stop body s'
    else Done s.
Proof.
  unfold for_loop, trip_count.
  destruct (Z.ltb_spec start stop) as [Hlt|Hge].
  - replace (stop - start + 1) with (stop - (start + 2) + 1 + 1 * 2) by lia.
    rewrite Z.div_add by lia.
    assert (0 <= (stop - (start + 2) + 1) / 2) by (apply Z.div_pos; lia).
    rewrite Z2Nat.inj_add by lia. rewrite Nat.add_comm. reflexivity.
  - assert ((stop - start + 1) / 2 < 1) by (apply Z.div_lt_upper_bound; lia).
    replace (Z.to_nat ((stop - start + 1) / 2)) with 0%nat by lia. reflexivity.
Qed.

Lemma trip_count_spec start stop :
  start <= stop → (stop - start) mod 2 = 0 →
  2 * Z.of_nat (trip_count start stop) = stop - start.
Proof.
  intros Hle Heven. unfold trip_count.
  rewrite Z2Nat.id by (apply Z.div_pos; lia).
  pose proof (Z.div_mod (stop - start) 2 ltac:(lia)) as Hdm.
  rewrite Heven in Hdm.
  replace (stop - start + 1) with (1 + (stop - start) / 2 * 2) by lia.
  rewrite Z.div_add by lia. change (1 / 2) with 0. lia.
Qed.

Lemma trip_count_none start stop : stop <= start → trip_count start stop = 0%nat.
Proof.
  intros Hle. unfold trip_count.
  assert ((stop - start + 1) / 2 < 1); [|lia].
  apply Z.div_lt_upper_bound; lia.
Qed.

(** ** Samples: loads and stores *)

Section Memory.
Implicit Types rows : list (list Z).

Lemma sample_store_eq rows y idx v p :
  load rows y idx = Some p → load (store rows y idx v) y idx = Some v.
Proof.
  unfold load, sample, store. intros H.
  rewrite list_lookup_alter_eq.
  destruct (rows !! Z.to_nat y) as [row|]; simpl in *; [|done].
  apply list_lookup_insert_eq. by eapply lookup_lt_Some.
Qed.

Lemma sample_store_ne rows y idx v r c :
  (Z.to_nat y, Z.to_nat idx) ≠ (r, c) →
  sample (store rows y idx v) r c = sample rows r c.
Proof.
  unfold sample, store. intros Hne.
  destruct (decide (Z.to_nat y = r)) as [<-|Hr].
  - rewrite list_lookup_alter_eq.
    destruct (rows !! Z.to_nat y) as [row|]; simpl; [|done].
    apply list_lookup_insert_ne. congruence.
  - by rewrite list_lookup_alter_ne.
Qed.

Lemma sample_store_is_Some rows y idx v p r c :
  load rows y idx = Some p →
  is_Some (sample (store rows y idx v) r c) ↔ is_Some (sample rows r c).
Proof.
  intros Hp. destruct (decide ((Z.to_nat y, Z.to_nat idx) = (r, c))) as [[= <- <-]|Hne].
  - fold (load (store rows y idx v) y idx). fold (load rows y idx).
    rewrite (sample_store_eq _ _ _ _ _ Hp), Hp. split; eauto.
  - by rewrite sample_store_ne.
Qed.

End Memory.

(** ** The address of a bit position *)

Section Address.
Variable img : png.

Lemma sample_address_Some i y idx :
  sample_address img i = Some (y, idx) →
  0 < width img
  ∧ y = i / 6 / width img
  ∧ idx = (i / 6) mod width img * pixel_stride (color_type img) + (i / 2) mod 3.
Proof.
  unfold sample_address, locate.
  destruct (Z.leb_spec (width img) 0); [done|].
  intros [= <- <-]. done.
Qed.

Lemma sample_address_width i :
  0 < width img → is_Some (sample_address img i).
Proof.
  intros Hw. unfold sample_address, locate.
  destruct (Z.leb_spec (width img) 0); [lia|]. eauto.
Qed.

Lemma sample_address_nonneg i y idx :
  0 <= i → sample_address img i = Some (y, idx) → 0 <= y ∧ 0 <= idx.
Proof.
  intros Hi (Hw & -> & ->)%sample_address_Some.
  assert (0 <= i / 6) by (apply Z.div_pos; lia).
  pose proof (Z.mod_pos_bound (i / 6) (width img) Hw).
  pose proof (Z.mod_pos_bound (i / 2) 3 ltac:(lia)).
  assert (0 < pixel_stride (color_type img)) by (destruct (color_type img); simpl; lia).
  split; [apply Z.div_pos; lia | nia].
Qed.

(** Distinct chunks go to distinct samples. *)
Lemma sample_address_inj i j a :
  0 <= i → 0 <= j → i mod 2 = 0 → j mod 2 = 0 →
  sample_address img i = Some a → sample_address img j = Some a → i = j.
Proof.
  destruct a as [y idx].
  intros Hi Hj Hie Hje (Hw & Hy & Hidx)%sample_address_Some
    (_ & Hy' & Hidx')%sample_address_Some.
  assert (3 <= pixel_stride (color_type img)) as Hs
    by (destruct (color_type img); simpl; lia).
  pose proof (Z.mod_pos_bound (i / 6) (width img) Hw).
  pose proof (Z.mod_pos_bound (j / 6) (width img) Hw).
  pose proof (Z.mod_pos_bound (i / 2) 3 ltac:(lia)).
  pose proof (Z.mod_pos_bound (j / 2) 3 ltac:(lia)).
  assert ((i / 6) mod width img = (j / 6) mod width img ∧ (i / 2) mod 3 = (j / 2) mod 3)
    as [Hx Hc] by (destruct (color_type img); simpl in *; lia).
  assert (i / 6 = j / 6) as Hq.
  { pose proof (Z.div_mod (i / 6) (width img) ltac:(lia)).
    pose proof (Z.div_mod (j / 6) (width img) ltac:(lia)).
    assert (i / 6 / width img = j / 6 / width img) as Hyy by congruence.
    etrans; [eassumption|]. rewrite Hyy, Hx. by symmetry. }
  assert (i / 2 = j / 2) as Hh.
  { pose proof (Z.div_mod (i / 2) 3 ltac:(lia)) as Hi2.
    pose proof (Z.div_mod (j / 2) 3 ltac:(lia)) as Hj2.
    rewrite Z.div_div in Hi2, Hj2 by lia. change (2 * 3) with 6 in Hi2, Hj2. lia. }
  pose proof (Z.div_mod i 2 ltac:(lia)). pose proof (Z.div_mod j 2 ltac:(lia)). lia.
Qed.

End Address.

(** ** write_data as one pass over the embedded stream *)

Section Signature.

Lemma strlen_bounds s : 0 <= strlen s <= Z.of_nat (length s).
Proof.
  induction s as [|c s IH]; simpl; [lia|].
  destruct (c =? 0); lia.
Qed.

Lemma strlen_no_nul s : Forall (λ c, c ≠ 0) s → strlen s = Z.of_nat (length s).
Proof.
  induction 1 as [|c s Hc _ IH]; simpl; [done|].
  destruct (Z.eqb_spec c 0); lia.
Qed.

Lemma generate_signature_length filename size :
  Z.of_nat (length (generate_signature filename size).1)
  = (generate_signature filename size).2.
Proof.
  unfold generate_signature, SIG_SIZE_BITS. cbn [fst snd].
  pose proof (strlen_bounds filename).
  rewrite !length_app, !length_map, length_take. simpl length.
  change (32 / 8 * 2) with 8. lia.
Qed.

Lemma generate_signature_size filename size :
  (generate_signature filename size).2 = 8 + strlen filename.
Proof. reflexivity. Qed.

End Signature.

(** Positions advance by whole chunks, four to a byte. *)
Lemma even_add2 j : j mod 2 = 0 → (j + 2) mod 2 = 0.
Proof.
  intros H. replace (j + 2) with (j + 1 * 2) by lia.
  by rewrite Z_mod_plus_full.
Qed.

Lemma even_steps i (k : nat) : i mod 2 = 0 → (i + 2 * Z.of_nat k) mod 2 = 0.
Proof.
  intros H. replace (i + 2 * Z.of_nat k) with (i + Z.of_nat k * 2) by lia.
  by rewrite Z_mod_plus_full.
Qed.

Lemma even_mod8 j :
  j mod 2 = 0 → j mod 8 = 0 ∨ j mod 8 = 2 ∨ j mod 8 = 4 ∨ j mod 8 = 6.
Proof.
  intros H.
  assert (j mod 8 mod 2 = j mod 2) as Hmm
    by (apply Z.mod_mod_divide; exists 4; reflexivity).
  pose proof (Z.mod_pos_bound j 8 ltac:(lia)).
  pose proof (Z.div_mod (j mod 8) 2 ltac:(lia)). lia.
Qed.

Lemma next_byte j : j mod 8 = 6 → (j + 2) / 8 = j / 8 + 1 ∧ (j + 2) mod 8 = 0.
Proof.
  intros H.
  pose proof (Z.div_mod j 8 ltac:(lia)).
  pose proof (Z.div_mod (j + 2) 8 ltac:(lia)).
  pose proof (Z.mod_pos_bound (j + 2) 8 ltac:(lia)). lia.
Qed.

Lemma same_byte j :
  0 <= j mod 8 < 6 → (j + 2) / 8 = j / 8 ∧ (j + 2) mod 8 = j mod 8 + 2.
Proof.
  intros H.
  pose proof (Z.div_mod j 8 ltac:(lia)).
  pose proof (Z.div_mod (j + 2) 8 ltac:(lia)).
  pose proof (Z.mod_pos_bound (j + 2) 8 ltac:(lia)). lia.
Qed.

Section WriteLoops.
Variable img : png.

Lemma signature_loop_stream (sig rest : list Z) (n : nat) i st :
  0 <= i → i + 2 * Z.of_nat n <= 8 * Z.of_nat (length sig) →
  outcome_rel (λ st' rows, w_rows st' = rows ∧ w_file st' = w_file st)
    (for_steps n i (signature_body img sig) st)
    (for_steps n i (stream_body img (sig ++ rest)) (w_rows st)).
Proof.
  intros Hi Hn.
  apply (for_steps_rel (λ _ st' rows, w_rows st' = rows ∧ w_file st' = w_file st));
    [|done].
  intros k a b Hk [<- Hf].
  unfold signature_body, stream_body.
  assert (Z.to_nat ((i + 2 * Z.of_nat k) / 8) < length sig)%nat as Hlt.
  { apply Nat2Z.inj_lt. rewrite Z2Nat.id by (apply Z.div_pos; lia).
    apply Z.div_lt_upper_bound; lia. }
  rewrite lookup_app_l by done.
  destruct (lookup_lt_is_Some_2 _ _ Hlt) as [byte ->]. simpl.
  destruct (embed_chunk _ _ _ _); simpl; done.
Qed.

Lemma data_loop_stream (stream : list Z) (n : nat) i st :
  0 <= i → i mod 2 = 0 → i + 2 * Z.of_nat n <= 8 * Z.of_nat (length stream) →
  (i < 8 * Z.of_nat (length stream) →
     stream !! Z.to_nat (i / 8) = Some (w_data_byte st)
     ∧ w_file st = drop (S (Z.to_nat (i / 8))) stream) →
  outcome_rel (λ st' rows, w_rows st' = rows)
    (for_steps n i (data_body img) st)
    (for_steps n i (stream_body img stream) (w_rows st)).
Proof.
  intros Hi Heven Hn Hinv.
  pose (R := λ (j : Z) (st' : wstate) (rows : list (list Z)),
    w_rows st' = rows
    ∧ (j < 8 * Z.of_nat (length stream) →
         stream !! Z.to_nat (j / 8) = Some (w_data_byte st')
         ∧ w_file st' = drop (S (Z.to_nat (j / 8))) stream)).
  assert (outcome_rel (R (i + 2 * Z.of_nat n))
    (for_steps n i (data_body img) st)
    (for_steps n i (stream_body img stream) (w_rows st))) as H.
  { apply for_steps_rel; [|by split].
    intros k a b Hk [<- Hab].
    set (j := i + 2 * Z.of_nat k) in *.
    assert (0 <= j ∧ j mod 2 = 0 ∧ j + 2 <= 8 * Z.of_nat (length stream))
      as (Hj & Hje & Hjn).
    { subst j. split; [lia|]. split; [by apply even_steps | lia]. }
    destruct Hab as [Hb Hf]; [lia|].
    unfold data_body, stream_body. rewrite Hb. simpl.
    destruct (embed_chunk _ _ _ _) as [rows| |]; simpl; [|done..].
    pose proof (even_mod8 j Hje) as Hcases.
    destruct (Z.eqb_spec (6 - j mod 8) 0) as [H6|H6].
    - (* the byte is used up: [fread] moves on *)
      destruct (next_byte j ltac:(lia)) as [Hq _].
      split; [by destruct (w_file a) |].
      intros Hlt. rewrite Hq.
      assert (0 <= j / 8) by (apply Z.div_pos; lia).
      replace (Z.to_nat (j / 8 + 1)) with (S (Z.to_nat (j / 8))) by lia.
      assert (S (Z.to_nat (j / 8)) < length stream)%nat as Hlen.
      { apply Nat2Z.inj_lt. rewrite Nat2Z.inj_succ, Z2Nat.id by done.
        pose proof (Z.div_mod j 8 ltac:(lia)). lia. }
      destruct (lookup_lt_is_Some_2 _ _ Hlen) as [byte Hbyte].
      unfold fread. simpl. rewrite Hf.
      rewrite (drop_S _ _ _ Hbyte). simpl. done.
    - destruct (same_byte j ltac:(lia)) as [Hq _].
      split; [done|]. simpl. intros _. rewrite Hq. done. }
  destruct (for_steps n i (data_body img) st),
    (for_steps n i (stream_body img stream) (w_rows st)); simpl in *;
    try done. apply H.
Qed.

End WriteLoops.

Lemma trip_count_le start stop :
  2 * Z.of_nat (trip_count start stop) <= Z.max 0 (stop - start + 1).
Proof.
  unfold trip_count.
  destruct (Z.le_gt_cases (stop - start + 1) 0) as [Hle|Hgt].
  - assert ((stop - start + 1) / 2 <= 0) by (apply Z.div_le_upper_bound; lia). lia.
  - rewrite Z2Nat.id by (apply Z.div_pos; lia).
    pose proof (Z.mul_div_le (stop - start + 1) 2 ltac:(lia)). lia.
Qed.

(** The data loop never runs past the end of the data file. *)
Lemma data_trip_bound a len :
  0 <= a → 0 <= len →
  2 * Z.of_nat (trip_count a (wrap64 (a + wrap32 (wrap32 len * 8)))) <= 8 * len.
Proof.
  intros Ha Hlen. set (w := wrap32 (wrap32 len * 8)).
  assert (∀ z, 0 <= z → 0 <= wrap32 z <= z) as Hwrap.
  { intros z Hz. unfold wrap32.
    pose proof (Z.mod_pos_bound z (2 ^ 32) ltac:(lia)).
    pose proof (Z.mod_le z (2 ^ 32) ltac:(lia) ltac:(lia)). lia. }
  pose proof (Hwrap len Hlen) as Hsize.
  pose proof (Hwrap (wrap32 len * 8) ltac:(lia)) as Hw. fold w in Hw.
  assert (w mod 2 = 0) as Hweven.
  { unfold w, wrap32 at 1.
    rewrite Z.mod_mod_divide by (exists (2 ^ 31); reflexivity).
    replace (wrap32 len * 8) with (0 + (wrap32 len * 4) * 2) by lia.
    by rewrite Z_mod_plus_full. }
  assert (wrap64 (a + w) <= a + w) as Hb
    by (apply Z.mod_le; lia).
  pose proof (trip_count_le a (wrap64 (a + w))) as Ht.
  pose proof (Z.div_mod w 2 ltac:(lia)). lia.
Qed.

Lemma fread_rows st : w_rows (fread st) = w_rows st.
Proof. unfold fread. by destruct (w_file st). Qed.

(** [write_data] checks the capacity and then embeds the first
    [chunks_written] chunks of [embedded_stream], chunk [k] at bit
    position [2 * k]. *)
Lemma write_data_stream img data_filename file :
  write_data img data_filename file =
    if max_data_bits img <? required_data_bits data_filename file then
      Abort (required_data_bits data_filename file / 8) (max_data_bits img / 8)
            (row_pointers img)
    else
      with_rows img <$>
        for_steps (chunks_written data_filename file) 0
          (stream_body img (embedded_stream data_filename file)) (row_pointers img).
Proof.
  unfold chunks_written, write_data, required_data_bits, max_data_bits, embedded_stream.
  set (size := wrap32 (Z.of_nat (length file))).
  pose proof (generate_signature_length data_filename size) as Hlen.
  pose proof (generate_signature_size data_filename size) as Hsz.
  pose proof (strlen_bounds data_filename) as Hstr.
  destruct (generate_signature data_filename size) as [sig sz]. cbn [fst snd] in *.
  destruct (_ <? _); [done|].
  unfold for_loop.
  set (req := wrap64 _). set (n1 := trip_count 0 (sz * 8)).
  set (n2 := trip_count (sz * 8) req).
  set (st0 := {| w_rows := row_pointers img; w_data_byte := 0; w_file := file |}).
  assert (2 * Z.of_nat n1 = sz * 8) as Hn1.
  { unfold n1. rewrite trip_count_spec; [lia..|].
    replace (sz * 8 - 0) with (0 + (sz * 4) * 2) by lia. by rewrite Z_mod_plus_full. }
  assert (2 * Z.of_nat n2 <= 8 * Z.of_nat (length file)) as Hn2.
  { unfold n2, req, size. apply data_trip_bound; lia. }
  rewrite for_steps_app.
  pose proof (signature_loop_stream img sig file n1 0 st0 ltac:(lia) ltac:(lia)) as H1.
  change (w_rows st0) with (row_pointers img) in H1.
  destruct (for_steps n1 0 (signature_body img sig) st0) as [st1| |],
    (for_steps n1 0 (stream_body img (sig ++ file)) (row_pointers img)) as [rows1| |];
    simpl in H1 |- *; try done; [|by destruct H1 as (-> & -> & ->)].
  destruct H1 as [<- Hfile]. change (w_file st0) with file in Hfile.
  replace (0 + 2 * Z.of_nat n1) with (sz * 8) by lia.
  assert (outcome_rel (λ st' rows, w_rows st' = rows)
    (for_steps n2 (sz * 8) (data_body img) (fread st1))
    (for_steps n2 (sz * 8) (stream_body img (sig ++ file)) (w_rows (fread st1)))) as H2.
  { apply data_loop_stream.
    - lia.
    - replace (sz * 8) with (0 + (sz * 4) * 2) by lia. by rewrite Z_mod_plus_full.
    - rewrite length_app. lia.
    - rewrite length_app. intros Hlt.
      rewrite Z.div_mul by lia.
      assert (Z.to_nat sz = length sig) as -> by lia.
      unfold fread. rewrite Hfile.
      destruct file as [|b rest]; [simpl in Hlt; lia|]. simpl.
      split.
      + rewrite lookup_app_r by lia. by rewrite Nat.sub_diag.
      + rewrite cons_middle, app_assoc.
        symmetry. apply drop_app_length'. rewrite length_app. simpl. lia. }
  rewrite fread_rows in H2.
  unfold mbind, outcome_bind, fmap, outcome_fmap.
  destruct (for_steps n2 (sz * 8) (data_body img) (fread st1)),
    (for_steps n2 (sz * 8) (stream_body img (sig ++ file)) (w_rows st1));
    simpl in *; try done; [by subst | by destruct H2 as (-> & -> & ->)].
Qed.

(** ** What a pass over the stream does to the samples *)

Section Embedding.
Variable img : png.
Variable stream : list Z.

Lemma stream_body_Done i rows rows' :
  stream_body img stream i rows = Done rows' →
  ∃ y idx p b,
    sample_address img i = Some (y, idx)
    ∧ load rows y idx = Some p
    ∧ stream !! Z.to_nat (i / 8) = Some b
    ∧ rows' = store rows y idx (Z.lor (Z.land p 252) (data_chunk b (6 - i mod 8))).
Proof.
  unfold stream_body, embed_chunk.
  destruct (stream !! Z.to_nat (i / 8)) as [b|]; simpl; [|done].
  destruct (sample_address img i) as [[y idx]|]; simpl; [|done].
  destruct (load rows y idx) as [p|] eqn:Hp; simpl; [|done].
  intros [= <-]. by exists y, idx, p, b.
Qed.

Lemma for_steps_S_Done {St} (n : nat) i (body : Z → St → outcome St) s s' :
  for_steps (S n) i body s = Done s' →
  ∃ s1, body i s = Done s1 ∧ for_steps n (i + 2) body s1 = Done s'.
Proof.
  simpl. destruct (body i s) as [s1| |]; simpl; [|done..].
  intros H. by exists s1.
Qed.

(** Samples no chunk is addressed to are left alone; the sample chunk
    [k] is addressed to ends as its old value with the low pair
    replaced by the chunk. *)
Lemma stream_loop_effect (n : nat) i rows rows' :
  0 <= i → i mod 2 = 0 →
  for_steps n i (stream_body img stream) rows = Done rows' →
  (∀ r c : nat,
      (∀ k : nat, (k < n)%nat →
         sample_address img (i + 2 * Z.of_nat k) ≠ Some (Z.of_nat r, Z.of_nat c)) →
      sample rows' r c = sample rows r c)
  ∧ (∀ k : nat, (k < n)%nat →
      ∃ y idx p b,
        sample_address img (i + 2 * Z.of_nat k) = Some (y, idx)
        ∧ load rows y idx = Some p
        ∧ stream !! Z.to_nat ((i + 2 * Z.of_nat k) / 8) = Some b
        ∧ load rows' y idx
          = Some (Z.lor (Z.land p 252)
                    (data_chunk b (6 - (i + 2 * Z.of_nat k) mod 8)))).
Proof.
  revert i rows. induction n as [|n IH]; intros i rows Hi Heven Hrun.
  { simpl in Hrun. injection Hrun as <-. split; [done|]. intros k Hk. lia. }
  apply for_steps_S_Done in Hrun as (rows1 & Hstep & Hrest).
  apply stream_body_Done in Hstep as (y & idx & p & b & Hadr & Hp & Hb & ->).
  destruct (sample_address_nonneg img i y idx Hi Hadr) as [Hy Hidx].
  destruct (IH (i + 2) _ ltac:(lia) (even_add2 _ Heven) Hrest) as [IHa IHb].
  assert (∀ k : nat, i + 2 + 2 * Z.of_nat k = i + 2 * Z.of_nat (S k)) as Hshift
    by (intros; lia).
  assert (∀ k : nat, sample_address img (i + 2 + 2 * Z.of_nat k) ≠ Some (y, idx))
    as Hfresh.
  { intros k Hk.
    assert (i + 2 + 2 * Z.of_nat k = i); [|lia].
    eapply (sample_address_inj img); [lia | lia | | | exact Hk | exact Hadr].
    - rewrite Hshift. by apply even_steps.
    - done. }
  split.
  - intros r c Hfree. rewrite IHa.
    + apply sample_store_ne. intros [= <- <-].
      apply (Hfree 0%nat ltac:(lia)).
      rewrite !Z2Nat.id by lia. rewrite <- Hadr. f_equal. lia.
    + intros k Hk. rewrite Hshift. apply Hfree. lia.
  - intros [|k] Hk.
    + exists y, idx, p, b.
      replace (i + 2 * Z.of_nat 0) with i by lia.
      split_and!; [done..|].
      unfold load. rewrite IHa.
      * by eapply sample_store_eq.
      * intros k' _. rewrite !Z2Nat.id by lia. apply Hfresh.
    + destruct (IHb k ltac:(lia)) as (y' & idx' & p' & b' & Hadr' & Hp' & Hb' & Hres).
      rewrite Hshift in Hadr', Hb', Hres.
      exists y', idx', p', b'. split_and!; [done| |done..].
      rewrite <- Hp'. symmetry. apply sample_store_ne.
      destruct (sample_address_nonneg img (i + 2 * Z.of_nat (S k)) y' idx'
                  ltac:(lia) Hadr').
      intros [= Hyy Hii].
      apply (Hfresh k). rewrite Hshift, Hadr'. f_equal. f_equal; lia.
Qed.

End Embedding.

(** ** The signature and the chunks in the words of the specification *)

Section Layout.

Lemma byte_at_is_byte v t : is_byte (byte_at v t).
Proof. unfold is_byte, byte_at. apply Z.mod_pos_bound. lia. Qed.

Lemma byte_at_land v t : 0 <= t → byte_at v t = Z.land (Z.shiftr v t) (Z.ones 8).
Proof.
  intros Ht. unfold byte_at.
  rewrite Z.land_ones, Z.shiftr_div_pow2 by lia. reflexivity.
Qed.

Lemma byte_at_lor a b t :
  0 <= t → byte_at (Z.lor a b) t = Z.lor (byte_at a t) (byte_at b t).
Proof.
  intros Ht. rewrite !byte_at_land by done.
  by rewrite Z.shiftr_lor, Z.land_lor_distr_l.
Qed.

Lemma be32_lor a b : be32 (Z.lor a b) = zip_with Z.lor (be32 a) (be32 b).
Proof. unfold be32. simpl. by rewrite !byte_at_lor by lia. Qed.

Lemma be32_inj a b :
  0 <= a < 2 ^ 32 → 0 <= b < 2 ^ 32 → be32 a = be32 b → a = b.
Proof.
  assert (∀ v, 0 <= v < 2 ^ 32 →
    v = byte_at v 24 * 2 ^ 24 + byte_at v 16 * 2 ^ 16
        + byte_at v 8 * 2 ^ 8 + byte_at v 0) as Hsum.
  { intros v Hv. unfold byte_at.
    assert (v / 2 ^ 16 = v / 2 ^ 8 / 2 ^ 8) as E16
      by (rewrite Z.div_div by lia; reflexivity).
    assert (v / 2 ^ 24 = v / 2 ^ 16 / 2 ^ 8) as E24
      by (rewrite Z.div_div by lia; reflexivity).
    pose proof (Z.div_mod v (2 ^ 8) ltac:(lia)) as H0.
    pose proof (Z.div_mod (v / 2 ^ 8) (2 ^ 8) ltac:(lia)) as H1.
    pose proof (Z.div_mod (v / 2 ^ 16) (2 ^ 8) ltac:(lia)) as H2.
    rewrite <- E16 in H1. rewrite <- E24 in H2.
    assert ((v / 2 ^ 24) mod 2 ^ 8 = v / 2 ^ 24) as H3.
    { apply Z.mod_small. split; [apply Z.div_pos; lia|].
      apply Z.div_lt_upper_bound; lia. }
    change 256 with (2 ^ 8). rewrite Z.pow_0_r, Z.div_1_r. lia. }
  intros Ha Hb [= H24 H16 H8 H0].
  rewrite (Hsum a Ha), (Hsum b Hb). congruence.
Qed.

(** [generate_signature] writes the two lengths most significant byte
    first. *)
Lemma sig_byte_size_t_spec v i :
  0 <= i < 4 → sig_byte_size_t v i = byte_at v (i * 8).
Proof.
  intros Hi. unfold sig_byte_size_t, wrap8, byte_at.
  assert (i = 0 ∨ i = 1 ∨ i = 2 ∨ i = 3) as [->|[->|[->| ->]]] by lia.
  1-3: match goal with |- context [wrap64 (int32 (Z.shiftl 255 ?s))] =>
         change (wrap64 (int32 (Z.shiftl 255 s))) with (Z.shiftl (Z.ones 8) s)
       end;
       rewrite Z.shiftr_land, Z.shiftr_shiftl_l, Z.sub_diag, Z.shiftl_0_r by lia;
       rewrite Z.land_ones, Z.shiftr_div_pow2 by lia;
       change (2 ^ 8) with 256; by rewrite Zmod_mod.
  change (wrap64 (int32 (Z.shiftl 255 (3 * 8)))) with (Z.shiftl (Z.ones 40) (3 * 8)).
  rewrite Z.shiftr_land, Z.shiftr_shiftl_l, Z.sub_diag, Z.shiftl_0_r by lia.
  rewrite Z.land_ones, Z.shiftr_div_pow2 by lia.
  apply Z.mod_mod_divide. exists (2 ^ 32). reflexivity.
Qed.

Lemma sig_byte_uint32_spec v i :
  0 <= i < 4 → sig_byte_uint32 v i = byte_at v (i * 8).
Proof.
  intros Hi. unfold sig_byte_uint32, wrap8, byte_at.
  assert (i = 0 ∨ i = 1 ∨ i = 2 ∨ i = 3) as [->|[->|[->| ->]]] by lia.
  all: match goal with |- context [wrap32 (int32 (Z.shiftl 255 ?s))] =>
         change (wrap32 (int32 (Z.shiftl 255 s))) with (Z.shiftl (Z.ones 8) s)
       end;
       rewrite Z.shiftr_land, Z.shiftr_shiftl_l, Z.sub_diag, Z.shiftl_0_r by lia;
       rewrite Z.land_ones, Z.shiftr_div_pow2 by lia;
       change (2 ^ 8) with 256; by rewrite Zmod_mod.
Qed.

Lemma generate_signature_layout filename size :
  Forall (λ c, is_byte c ∧ c ≠ 0) filename →
  (generate_signature filename size).1
  = be32 (Z.of_nat (length filename)) ++ be32 size ++ filename.
Proof.
  intros Hname. unfold generate_signature. cbn [fst].
  rewrite strlen_no_nul by (eapply Forall_impl; [exact Hname|]; by intros ? [_ ?]).
  rewrite Nat2Z.id, firstn_all.
  f_equal; [|f_equal].
  - unfold be32. cbn [map]. by rewrite !sig_byte_size_t_spec by lia.
  - unfold be32. cbn [map]. by rewrite !sig_byte_uint32_spec by lia.
  - induction Hname as [|c l [Hc _] _ IH]; simpl; [done|].
    by rewrite wrap8_byte, IH.
Qed.

(** The chunk the writing loops cut out of a byte is the chunk of the
    specification. *)
Lemma data_chunk_chunk_of_byte b i :
  i mod 2 = 0 → data_chunk b (6 - i mod 8) = chunk_of_byte b ((i / 2) mod 4).
Proof.
  intros Heven. pose proof (even_mod8 i Heven) as Hcases.
  assert ((i / 2) mod 4 = (i mod 8) / 2) as ->.
  { pose proof (Z.div_mod i 8 ltac:(lia)) as H8.
    pose proof (Z.mod_pos_bound i 8 ltac:(lia)).
    symmetry. apply (Z.mod_unique_pos _ _ (i / 8)).
    - split; [apply Z.div_pos; lia | apply Z.div_lt_upper_bound; lia].
    - rewrite H8 at 1. rewrite Z.mul_comm, (Z.add_comm _ (i mod 8)).
      replace (i / 8 * 8) with (i / 8 * 4 * 2) by lia.
      rewrite Z.div_add by lia. lia. }
  rewrite data_chunk_spec by lia. unfold chunk_of_byte.
  destruct Hcases as [->|[->|[->| ->]]]; reflexivity.
Qed.

End Layout.

(** ** Reassembling chunks *)

Section Reassembly.

Lemma lor_below n a b :
  0 <= n → 0 <= a < 2 ^ n → 0 <= b < 2 ^ n → 0 <= Z.lor a b < 2 ^ n.
Proof.
  intros Hn Ha Hb.
  assert (Z.lor a b = Z.lor a b mod 2 ^ n) as ->.
  { rewrite <- Z.land_ones, Z.land_lor_distr_l, !Z.land_ones by lia.
    rewrite !Z.mod_small by lia. reflexivity. }
  apply Z.mod_pos_bound. lia.
Qed.

Lemma wrap8_lor a b : wrap8 (Z.lor a b) = Z.lor (wrap8 a) (wrap8 b).
Proof.
  unfold wrap8. rewrite <- !Z.land_ones by lia. apply Z.land_lor_distr_l.
Qed.

Lemma wrap8_wrap8 a : wrap8 (wrap8 a) = wrap8 a.
Proof. apply wrap8_byte, wrap8_is_byte. Qed.

(** The four chunks of a byte, shifted to their places, give the byte
    back. *)
Lemma chunks_of_byte b :
  is_byte b →
  Z.lor (Z.lor (Z.lor (Z.shiftl (data_chunk b 6) 6) (Z.shiftl (data_chunk b 4) 4))
               (Z.shiftl (data_chunk b 2) 2))
        (Z.shiftl (data_chunk b 0) 0) = b.
Proof.
  intros Hb. apply Z.eqb_eq.
  apply (forall_below 256 (λ b,
    Z.lor (Z.lor (Z.lor (Z.shiftl (data_chunk b 6) 6) (Z.shiftl (data_chunk b 4) 4))
                 (Z.shiftl (data_chunk b 2) 2))
          (Z.shiftl (data_chunk b 0) 0) =? b)); [vm_compute; reflexivity | exact Hb].
Qed.

Lemma shifted_chunk_byte c off :
  0 <= c < 4 → 0 <= off <= 6 → is_byte (Z.shiftl c off).
Proof.
  intros Hc Hoff. unfold is_byte. rewrite Z.shiftl_mul_pow2 by lia.
  assert (2 ^ off <= 2 ^ 6) by (apply Z.pow_le_mono_r; lia).
  assert (0 < 2 ^ off) by (apply Z.pow_pos_nonneg; lia). nia.
Qed.

(** Four [|=] steps into a buffer byte holding [old]: the byte read
    back is [old], as a byte, or-ed with the embedded byte. *)
Lemma reassemble old b :
  is_byte b →
  let s0 := wrap8 (Z.lor old (Z.shiftl (data_chunk b 6) 6)) in
  let s1 := wrap8 (Z.lor s0 (Z.shiftl (data_chunk b 4) 4)) in
  let s2 := wrap8 (Z.lor s1 (Z.shiftl (data_chunk b 2) 2)) in
  wrap8 (Z.lor s2 (Z.shiftl (data_chunk b 0) 0)) = Z.lor (wrap8 old) b.
Proof.
  intros Hb. cbv zeta.
  rewrite !wrap8_lor, !wrap8_wrap8.
  rewrite !(wrap8_byte (Z.shiftl _ _))
    by (apply shifted_chunk_byte; [apply data_chunk_range|]; lia).
  rewrite <- !Z.lor_assoc. f_equal.
  rewrite !Z.lor_assoc. by apply chunks_of_byte.
Qed.

(** The shifted chunk of a header loop occupies one byte of the field. *)
Lemma shifted_chunk_be32 c (k : nat) :
  (k < 16)%nat → 0 <= c < 4 →
  be32 (wrap32 (int32 (Z.shiftl c (30 - 2 * Z.of_nat k))))
  = <[Z.to_nat (2 * Z.of_nat k / 8) := Z.shiftl c (6 - (2 * Z.of_nat k) mod 8)]>
      [0; 0; 0; 0].
Proof.
  intros Hk Hc.
  assert (c = 0 ∨ c = 1 ∨ c = 2 ∨ c = 3) as Hcs by lia.
  do 16 (destruct k as [|k];
    [destruct Hcs as [->|[->|[->| ->]]]; vm_compute; reflexivity|]).
  lia.
Qed.

(** One [|=] of a header loop, seen on the four bytes of the
    accumulator: chunk [k] of the field lands in byte [k / 4], at the
    place the byte loops give it. *)
Lemma size_step_bytes v c (k : nat) old :
  (k < 16)%nat → 0 <= c < 4 →
  be32 v !! Z.to_nat (2 * Z.of_nat k / 8) = Some old →
  be32 (Z.lor v (wrap32 (int32 (Z.shiftl c (30 - 2 * Z.of_nat k)))))
  = <[Z.to_nat (2 * Z.of_nat k / 8) :=
        wrap8 (Z.lor old (Z.shiftl c (6 - (2 * Z.of_nat k) mod 8)))]> (be32 v).
Proof.
  intros Hk Hc. rewrite be32_lor, shifted_chunk_be32 by done.
  assert (is_byte (Z.shiftl c (6 - (2 * Z.of_nat k) mod 8))) as HX.
  { apply shifted_chunk_byte; [done|].
    pose proof (Z.mod_pos_bound (2 * Z.of_nat k) 8 ltac:(lia)).
    pose proof (even_mod8 (2 * Z.of_nat k)) as He.
    rewrite Z.mul_comm, Z_mod_mult in He. specialize (He eq_refl).
    rewrite (Z.mul_comm _ 2) in He. lia. }
  revert HX.
  generalize (Z.shiftl c (6 - (2 * Z.of_nat k) mod 8)).
  generalize (Z.to_nat (2 * Z.of_nat k / 8)).
  intros j X HX Hold. unfold be32 in *.
  do 4 (destruct j as [|j];
    [ injection Hold as <-; simpl; rewrite ?Z.lor_0_r; repeat f_equal;
      symmetry; apply wrap8_byte, lor_is_byte; [apply byte_at_is_byte | done]
    | ]).
  done.
Qed.

End Reassembly.

(** ** The reading loops *)

Lemma position_in_byte (a r : Z) :
  0 <= r < 8 → (8 * a + r) / 8 = a ∧ (8 * a + r) mod 8 = r.
Proof.
  intros Hr.
  pose proof (Z.div_mod (8 * a + r) 8 ltac:(lia)).
  pose proof (Z.mod_pos_bound (8 * a + r) 8 ltac:(lia)). lia.
Qed.

Section ReadLoops.
Variable img : png.

Lemma read_chunk_range i c : read_chunk img i = Done c → 0 <= c < 4.
Proof.
  unfold read_chunk.
  destruct (sample_address img i) as [[y idx]|]; simpl; [|done].
  destruct (load (row_pointers img) y idx) as [p|]; simpl; [|done].
  intros [= <-]. apply land3_range.
Qed.

Lemma byte_body_step i pre o rest c :
  read_chunk img i = Done c →
  byte_body img i (pre ++ o :: rest, Z.of_nat (length pre))
  = Done (pre ++ wrap8 (Z.lor o (Z.shiftl c (6 - i mod 8))) :: rest,
          if 6 - i mod 8 =? 0 then Z.of_nat (length pre) + 1 else Z.of_nat (length pre)).
Proof.
  intros Hc. unfold byte_body. rewrite Hc. cbn [fst snd]. simpl.
  rewrite Nat2Z.id, list_lookup_middle by done. simpl.
  rewrite insert_app_r_alt, Nat.sub_diag by done. reflexivity.
Qed.

(** The four steps that fill one byte of a buffer. *)
Lemma byte_loop_one (b0 : nat) pre o rest b :
  is_byte b →
  (∀ j, 0 <= j < 4 →
     read_chunk img (8 * Z.of_nat b0 + 2 * j) = Done (data_chunk b (6 - 2 * j))) →
  for_steps 4 (8 * Z.of_nat b0) (byte_body img) (pre ++ o :: rest, Z.of_nat (length pre))
  = Done (pre ++ Z.lor (wrap8 o) b :: rest, Z.of_nat (length pre) + 1).
Proof.
  intros Hb Hread.
  pose proof (Hread 0 ltac:(lia)) as H0. pose proof (Hread 1 ltac:(lia)) as H1.
  pose proof (Hread 2 ltac:(lia)) as H2. pose proof (Hread 3 ltac:(lia)) as H3.
  replace (8 * Z.of_nat b0 + 2 * 0) with (8 * Z.of_nat b0) in H0 by lia.
  replace (8 * Z.of_nat b0 + 2 * 1) with (8 * Z.of_nat b0 + 2) in H1 by lia.
  replace (8 * Z.of_nat b0 + 2 * 2) with (8 * Z.of_nat b0 + 2 + 2) in H2 by lia.
  replace (8 * Z.of_nat b0 + 2 * 3) with (8 * Z.of_nat b0 + 2 + 2 + 2) in H3 by lia.
  destruct (position_in_byte (Z.of_nat b0) 0 ltac:(lia)) as [_ M0].
  destruct (position_in_byte (Z.of_nat b0) 2 ltac:(lia)) as [_ M1].
  destruct (position_in_byte (Z.of_nat b0) 4 ltac:(lia)) as [_ M2].
  destruct (position_in_byte (Z.of_nat b0) 6 ltac:(lia)) as [_ M3].
  replace (8 * Z.of_nat b0 + 0) with (8 * Z.of_nat b0) in M0 by lia.
  replace (8 * Z.of_nat b0 + 4) with (8 * Z.of_nat b0 + 2 + 2) in M2 by lia.
  replace (8 * Z.of_nat b0 + 6) with (8 * Z.of_nat b0 + 2 + 2 + 2) in M3 by lia.
  cbn [for_steps].
  rewrite (byte_body_step _ _ _ _ _ H0), M0. simpl.
  rewrite (byte_body_step _ _ _ _ _ H1), M1. simpl.
  rewrite (byte_body_step _ _ _ _ _ H2), M2. simpl.
  rewrite (byte_body_step _ _ _ _ _ H3), M3. simpl.
  change (6 - 2 * 0) with 6. change (6 - 2 * 1) with 4.
  change (6 - 2 * 2) with 2. change (6 - 2 * 3) with 0.
  change (6 - 0) with 6. change (6 - 2) with 4.
  change (6 - 4) with 2. change (6 - 6) with 0.
  rewrite (reassemble o b Hb). reflexivity.
Qed.

(** A byte loop over a stretch of carried bytes returns, in every
    buffer byte, what the buffer held or-ed with the carried byte. *)
Lemma byte_loop_carried stream n olds :
  carries img stream n →
  ∀ pre (b0 : nat) bytes,
    length bytes = length olds →
    (∀ j, (j < length olds)%nat → stream !! (b0 + j)%nat = bytes !! j) →
    Forall is_byte bytes →
    (4 * (b0 + length olds) <= n)%nat →
    for_steps (4 * length olds) (8 * Z.of_nat b0) (byte_body img)
      (pre ++ olds, Z.of_nat (length pre))
    = Done (pre ++ zip_with (λ o b, Z.lor (wrap8 o) b) olds bytes,
            Z.of_nat (length pre + length olds)).
Proof.
  intros Hcar.
  induction olds as [|o olds IH]; intros pre b0 bytes Hlen Hstream Hbytes Hn.
  { destruct bytes; [|done]. simpl. by rewrite Nat.add_0_r. }
  destruct bytes as [|b bytes]; [done|].
  apply Forall_cons in Hbytes as [Hb Hbytes].
  simpl in Hlen. injection Hlen as Hlen.
  replace (4 * length (o :: olds))%nat with (4 + 4 * length olds)%nat by (simpl; lia).
  rewrite for_steps_app.
  rewrite (byte_loop_one b0 pre o olds b Hb).
  - simpl mbind.
    replace (8 * Z.of_nat b0 + 2 * Z.of_nat 4) with (8 * Z.of_nat (S b0)) by lia.
    replace (Z.of_nat (length pre) + 1)
      with (Z.of_nat (length (pre ++ [Z.lor (wrap8 o) b])))
      by (rewrite length_app; simpl; lia).
    rewrite (cons_middle _ pre olds), app_assoc.
    rewrite (IH _ (S b0) bytes); [| done | | done | simpl in Hn; lia].
    + rewrite <- app_assoc. simpl. do 2 f_equal.
      rewrite length_app. simpl. lia.
    + intros j Hj. specialize (Hstream (S j) ltac:(simpl; lia)).
      simpl in Hstream. rewrite <- Hstream. f_equal. lia.
  - intros j Hj.
    destruct (Hcar (4 * b0 + Z.to_nat j)%nat) as (b' & Hb' & Hread).
    { simpl in Hn. lia. }
    replace (2 * Z.of_nat (4 * b0 + Z.to_nat j)) with (8 * Z.of_nat b0 + 2 * j)
      in Hb', Hread by lia.
    destruct (position_in_byte (Z.of_nat b0) (2 * j) ltac:(lia)) as [Hq Hm].
    rewrite Hq in Hb'. rewrite Hm in Hread.
    rewrite Nat2Z.id in Hb'.
    specialize (Hstream 0%nat ltac:(simpl; lia)).
    rewrite Nat.add_0_r in Hstream. simpl in Hstream.
    rewrite Hstream in Hb'. by injection Hb' as <-.
Qed.

End ReadLoops.

(** ** Header loops and byte loops agree *)

Section HeaderLoops.
Variable img : png.

(** Read over the same sixteen chunks, a header loop and a byte loop
    that starts from the four bytes of the header accumulator end the
    same way, and the bytes of the header field are the bytes of the
    buffer. *)
Lemma size_loop_bytes start v0 :
  start mod 8 = 0 → 0 <= v0 < 2 ^ 32 →
  outcome_rel (λ v st, 0 <= v < 2 ^ 32 ∧ st.1 = be32 v)
    (for_steps 16 start (size_body img (start + 32)) v0)
    (for_steps 16 start (byte_body img) (be32 v0, 0)).
Proof.
  intros Hstart Hv0.
  pose (R := λ (j v : Z) (st : list Z * Z),
    0 <= v < 2 ^ 32 ∧ st.1 = be32 v ∧ st.2 = (j - start) / 8).
  assert (outcome_rel (R (start + 2 * Z.of_nat 16))
    (for_steps 16 start (size_body img (start + 32)) v0)
    (for_steps 16 start (byte_body img) (be32 v0, 0))) as H.
  { apply for_steps_rel.
    2:{ unfold R. simpl. by rewrite Z.sub_diag. }
    intros k v [buf pos] Hk (Hv & Hbuf & Hpos). simpl in Hbuf, Hpos. subst buf pos.
    replace (start + 2 * Z.of_nat k - start) with (2 * Z.of_nat k) by lia.
    assert ((start + 2 * Z.of_nat k) mod 8 = (2 * Z.of_nat k) mod 8) as Hmod.
    { rewrite Z.add_mod, Hstart, Z.add_0_l by lia. apply Z.mod_mod. lia. }
    unfold size_body, byte_body. cbn [fst snd].
    destruct (read_chunk img (start + 2 * Z.of_nat k)) as [c| |] eqn:Hc; simpl; [|done..].
    apply read_chunk_range in Hc.
    assert (0 <= 2 * Z.of_nat k / 8 < 4) as Hq.
    { split; [apply Z.div_pos; lia | apply Z.div_lt_upper_bound; lia]. }
    destruct (lookup_lt_is_Some_2 (be32 v) (Z.to_nat (2 * Z.of_nat k / 8)))
      as [old Hold]; [simpl; lia|].
    rewrite Hold. simpl.
    replace (start + 32 - 2 - (start + 2 * Z.of_nat k)) with (30 - 2 * Z.of_nat k) by lia.
    rewrite Hmod.
    split; [|split].
    - apply lor_below; [lia | lia |].
      apply Z.mod_pos_bound. lia.
    - by rewrite (size_step_bytes v c k old).
    - replace (start + 2 * Z.of_nat k + 2 - start) with (2 * Z.of_nat k + 2) by lia.
      pose proof (even_mod8 (2 * Z.of_nat k)) as He.
      rewrite Z.mul_comm, Z_mod_mult in He. specialize (He eq_refl).
      rewrite (Z.mul_comm _ 2) in He.
      destruct (Z.eqb_spec (6 - (2 * Z.of_nat k) mod 8) 0).
      + symmetry. apply next_byte. lia.
      + symmetry. apply same_byte. lia. }
  destruct (for_steps 16 start (size_body img (start + 32)) v0),
    (for_steps 16 start (byte_body img) (be32 v0, 0)); simpl in *; try done.
  by destruct H as (? & ? & _).
Qed.

End HeaderLoops.

(** ** From the written picture to the reading loops *)

Lemma sample_address_with_rows img rows i :
  sample_address (with_rows img rows) i = sample_address img i.
Proof. reflexivity. Qed.

(** After [write_data], the picture carries every chunk that was
    embedded. *)
Lemma write_data_carries img data_filename file img' :
  write_data img data_filename file = Done img' →
  carries img' (embedded_stream data_filename file) (chunks_written data_filename file).
Proof.
  rewrite write_data_stream.
  destruct (_ <? _); [done|].
  destruct (for_steps _ _ _ _) as [rows'| |] eqn:Hrun; simpl; [|done..].
  intros [= <-] k Hk.
  destruct (stream_loop_effect img _ _ 0 _ _ ltac:(lia) eq_refl Hrun) as [_ Hput].
  destruct (Hput k Hk) as (y & idx & p & b & Hadr & _ & Hb & Hres).
  replace (0 + 2 * Z.of_nat k) with (2 * Z.of_nat k) in * by lia.
  exists b. split; [done|].
  unfold read_chunk. rewrite sample_address_with_rows, Hadr. simpl.
  rewrite Hres. simpl. f_equal. apply stored_low, data_chunk_range.
  pose proof (Z.mod_pos_bound (2 * Z.of_nat k) 8 ltac:(lia)).
  pose proof (even_mod8 (2 * Z.of_nat k)) as He.
  rewrite Z.mul_comm, Z_mod_mult in He. specialize (He eq_refl).
  rewrite (Z.mul_comm _ 2) in He. lia.
Qed.

Lemma length_malloc mem n : 0 <= n → Z.of_nat (length (malloc mem n)) = n.
Proof. intros Hn. unfold malloc. rewrite length_map, length_seq. lia. Qed.

Lemma length_be32 v : length (be32 v) = 4%nat.
Proof. reflexivity. Qed.

Section Serialized.
Variables filename payload : list Z.

Lemma serialized_length :
  length (serialized filename payload) = (8 + length filename + length payload)%nat.
Proof.
  unfold serialized. rewrite !length_app, !length_be32.
  generalize (length filename), (length payload). intros. lia.
Qed.

Lemma serialized_lookup_1 (j : nat) :
  (j < 4)%nat → serialized filename payload !! (0 + j)%nat = be32 (Z.of_nat (length filename)) !! j.
Proof. intros Hj. unfold serialized. by rewrite lookup_app_l. Qed.

Lemma serialized_lookup_2 (j : nat) :
  (j < 4)%nat → serialized filename payload !! (4 + j)%nat = be32 (Z.of_nat (length payload)) !! j.
Proof.
  intros Hj. unfold serialized.
  rewrite lookup_app_r by (rewrite !length_be32; lia).
  rewrite lookup_app_l by (rewrite !length_be32; lia).
  f_equal. rewrite !length_be32. lia.
Qed.

Lemma serialized_lookup_3 (j : nat) :
  (j < length filename)%nat → serialized filename payload !! (8 + j)%nat = filename !! j.
Proof.
  intros Hj. unfold serialized.
  rewrite lookup_app_r by (rewrite !length_be32; lia).
  rewrite lookup_app_r by (rewrite !length_be32; lia).
  rewrite lookup_app_l by (rewrite !length_be32; lia).
  f_equal. rewrite !length_be32. lia.
Qed.

Lemma serialized_lookup_4 (j : nat) :
  (j < length payload)%nat →
  serialized filename payload !! (8 + length filename + j)%nat = payload !! j.
Proof.
  intros Hj. unfold serialized.
  rewrite lookup_app_r by (rewrite !length_be32; lia).
  rewrite lookup_app_r by (rewrite !length_be32; lia).
  rewrite lookup_app_r by (rewrite !length_be32; lia).
  f_equal. rewrite !length_be32. lia.
Qed.

End Serialized.

Lemma or_into_zeros bytes : or_into (map (λ _, 0) bytes) bytes = bytes.
Proof. unfold or_into. induction bytes as [|b l IH]; simpl; [done|]. by rewrite IH. Qed.

Lemma bind_Done {A B} (a : A) (f : A → outcome B) : Done a ≫= f = f a.
Proof. reflexivity. Qed.

(** [read_data] on a picture that carries a serialized file name and
    payload of less than 2^32 bits: both buffers come back as their
    [malloc]ed contents or-ed with the embedded bytes. *)
Lemma read_data_serialized img filename payload name_mem data_mem :
  Forall is_byte filename → Forall is_byte payload →
  (8 + Z.of_nat (length filename) + Z.of_nat (length payload)) * 8 < 2 ^ 32 →
  carries img (serialized filename payload)
    (4 * (8 + length filename + length payload)) →
  read_data img name_mem data_mem
  = Done (or_into (malloc name_mem (Z.of_nat (length filename))) filename,
          or_into (malloc data_mem (Z.of_nat (length payload))) payload).
Proof.
  intros Hname Hpay Hsize Hcar.
  set (fl := Z.of_nat (length filename)) in *.
  set (pl := Z.of_nat (length payload)) in *.
  unfold read_data, for_loop, SIG_SIZE_BITS.
  change (trip_count 0 32) with 16%nat. change (trip_count 32 (32 * 2)) with 16%nat.
  change (32 * 2) with 64.
  (* the length of the file name *)
  pose proof (size_loop_bytes img 0 0 eq_refl ltac:(lia)) as H1.
  change (0 + 32) with 32 in H1. change (be32 0) with ([] ++ [0; 0; 0; 0]) in H1.
  pose proof (byte_loop_carried img _ _ [0; 0; 0; 0] Hcar [] 0%nat (be32 fl) eq_refl
    (serialized_lookup_1 filename payload)) as B1.
  change (for_steps (4 * length [0; 0; 0; 0]) (8 * Z.of_nat 0))
    with (@for_steps (list Z * Z) 16 0) in B1.
  change (Z.of_nat (length [])) with 0 in B1.
  rewrite B1 in H1;
    [| repeat constructor; apply byte_at_is_byte | simpl; lia].
  destruct (for_steps 16 0 (size_body img 32) 0) as [v1| |]; simpl in H1; [|done..].
  destruct H1 as [Hv1 Hbe1].
  assert (v1 = fl) as ->.
  { apply be32_inj; [done | lia |]. by rewrite <- Hbe1. }
  rewrite bind_Done.
  (* the length of the payload *)
  pose proof (size_loop_bytes img 32 0 eq_refl ltac:(lia)) as H2.
  change (32 + 32) with 64 in H2. change (be32 0) with ([] ++ [0; 0; 0; 0]) in H2.
  pose proof (byte_loop_carried img _ _ [0; 0; 0; 0] Hcar [] 4%nat (be32 pl) eq_refl
    (serialized_lookup_2 filename payload)) as B2.
  change (for_steps (4 * length [0; 0; 0; 0]) (8 * Z.of_nat 4))
    with (@for_steps (list Z * Z) 16 32) in B2.
  change (Z.of_nat (length [])) with 0 in B2.
  rewrite B2 in H2;
    [| repeat constructor; apply byte_at_is_byte | simpl; lia].
  destruct (for_steps 16 32 (size_body img 64) 0) as [v2| |]; simpl in H2; [|done..].
  destruct H2 as [Hv2 Hbe2].
  assert (v2 = pl) as ->.
  { apply be32_inj; [done | lia |]. by rewrite <- Hbe2. }
  rewrite bind_Done.
  (* the file name *)
  rewrite !wrap32_small by lia.
  pose proof (length_malloc name_mem fl ltac:(lia)) as Lname.
  pose proof (length_malloc data_mem pl ltac:(lia)) as Ldata.
  assert (trip_count 64 (64 + fl * 8) = (4 * length (malloc name_mem fl))%nat) as ->.
  { pose proof (trip_count_spec 64 (64 + fl * 8) ltac:(lia)) as Ht.
    replace (64 + fl * 8 - 64) with (0 + fl * 4 * 2) in Ht by lia.
    rewrite Z_mod_plus_full in Ht. specialize (Ht eq_refl). lia. }
  pose proof (byte_loop_carried img _ _ (malloc name_mem fl) Hcar [] 8%nat filename) as B3.
  change (8 * Z.of_nat 8) with 64 in B3. simpl app in B3.
  change (Z.of_nat (length [])) with 0 in B3.
  rewrite B3; [| lia | | done | lia].
  2:{ intros j Hj. apply serialized_lookup_3. lia. }
  rewrite bind_Done. cbn [fst].
  (* the payload *)
  assert (trip_count (64 + fl * 8) (64 + fl * 8 + pl * 8)
          = (4 * length (malloc data_mem pl))%nat) as ->.
  { pose proof (trip_count_spec (64 + fl * 8) (64 + fl * 8 + pl * 8) ltac:(lia)) as Ht.
    replace (64 + fl * 8 + pl * 8 - (64 + fl * 8)) with (0 + pl * 4 * 2) in Ht by lia.
    rewrite Z_mod_plus_full in Ht. specialize (Ht eq_refl). lia. }
  pose proof (byte_loop_carried img _ _ (malloc data_mem pl) Hcar []
    (8 + length filename)%nat payload) as B4.
  replace (8 * Z.of_nat (8 + length filename)) with (64 + fl * 8) in B4 by lia.
  simpl app in B4. change (Z.of_nat (length [])) with 0 in B4.
  rewrite B4; [| lia | | done | lia].
  2:{ intros j Hj. apply serialized_lookup_4. lia. }
  reflexivity.
Qed.

(** ** Inputs in range *)

Lemma c_string_strlen filename :
  c_string filename → strlen filename = Z.of_nat (length filename).
Proof.
  intros Hname. apply strlen_no_nul.
  eapply Forall_impl; [exact Hname|]. by intros ? [_ ?].
Qed.

Lemma c_string_bytes filename : c_string filename → Forall is_byte filename.
Proof. intros Hname. eapply Forall_impl; [exact Hname|]. by intros ? [? _]. Qed.

Lemma embedded_stream_serialized filename payload :
  c_string filename → fits_32 filename payload →
  embedded_stream filename payload = serialized filename payload.
Proof.
  intros Hname Hfits. unfold embedded_stream, serialized, fits_32 in *.
  rewrite generate_signature_layout by done.
  rewrite wrap32_small by lia. by rewrite <- !app_assoc.
Qed.

Lemma required_data_bits_exact filename payload :
  c_string filename → fits_32 filename payload →
  required_data_bits filename payload
  = (8 + Z.of_nat (length filename) + Z.of_nat (length payload)) * 8.
Proof.
  intros Hname Hfits. unfold required_data_bits, fits_32 in *.
  rewrite generate_signature_size, c_string_strlen by done.
  rewrite (wrap32_small (Z.of_nat (length payload))) by lia.
  rewrite wrap32_small by lia. rewrite wrap64_small by lia. lia.
Qed.

Lemma chunks_written_exact filename payload :
  c_string filename → fits_32 filename payload →
  chunks_written filename payload
  = (4 * (8 + length filename + length payload))%nat.
Proof.
  intros Hname Hfits.
  unfold chunks_written. rewrite required_data_bits_exact by done.
  rewrite generate_signature_size, c_string_strlen by done.
  unfold fits_32 in Hfits.
  set (fl := Z.of_nat (length filename)) in *.
  set (pl := Z.of_nat (length payload)) in *.
  pose proof (trip_count_spec 0 ((8 + fl) * 8) ltac:(lia)) as H1.
  replace ((8 + fl) * 8 - 0) with (0 + (8 + fl) * 4 * 2) in H1 by lia.
  rewrite Z_mod_plus_full in H1. specialize (H1 eq_refl).
  pose proof (trip_count_spec ((8 + fl) * 8) ((8 + fl + pl) * 8) ltac:(lia)) as H2.
  replace ((8 + fl + pl) * 8 - (8 + fl) * 8) with (0 + pl * 4 * 2) in H2 by lia.
  rewrite Z_mod_plus_full in H2. specialize (H2 eq_refl). lia.
Qed.

Lemma max_data_bits_exact img :
  png_ok img → max_data_bits img = width img * height img * 6.
Proof.
  intros [Hw Hh _ _ _ Hmem]. unfold max_data_bits.
  apply wrap64_small.
  assert (3 <= pixel_stride (color_type img)) by (destruct (color_type img); simpl; lia).
  nia.
Qed.

(** ** Embedding within the capacity stays inside the picture *)

Lemma png_ok_load img i :
  png_ok img → 0 <= i < width img * height img * 6 →
  ∃ y idx, sample_address img i = Some (y, idx)
           ∧ is_Some (load (row_pointers img) y idx).
Proof.
  intros [Hw Hh Hrows Hrowbytes _ _] Hi.
  destruct (sample_address_width img i Hw) as [[y idx] Hadr].
  exists y, idx. split; [done|].
  destruct (sample_address_nonneg img i y idx ltac:(lia) Hadr) as [Hy Hidx].
  apply sample_address_Some in Hadr as (_ & -> & ->).
  assert (i / 6 < width img * height img) by (apply Z.div_lt_upper_bound; lia).
  assert (i / 6 / width img < height img) by (apply Z.div_lt_upper_bound; lia).
  unfold load, sample.
  destruct (lookup_lt_is_Some_2 (row_pointers img) (Z.to_nat (i / 6 / width img)))
    as [row Hrow]; [lia|].
  rewrite Hrow. simpl. apply lookup_lt_is_Some_2.
  rewrite Forall_lookup in Hrowbytes. specialize (Hrowbytes _ _ Hrow).
  pose proof (Z.mod_pos_bound (i / 6) (width img) Hw).
  pose proof (Z.mod_pos_bound (i / 2) 3 ltac:(lia)).
  assert (3 <= pixel_stride (color_type img)) by (destruct (color_type img); simpl; lia).
  apply Nat2Z.inj_lt. rewrite Z2Nat.id by lia. nia.
Qed.

Lemma stream_loop_runs img stream (n : nat) i rows :
  0 <= i → i + 2 * Z.of_nat n <= 8 * Z.of_nat (length stream) →
  (∀ k : nat, (k < n)%nat →
     ∃ y idx, sample_address img (i + 2 * Z.of_nat k) = Some (y, idx)
              ∧ is_Some (load rows y idx)) →
  ∃ rows', for_steps n i (stream_body img stream) rows = Done rows'.
Proof.
  revert i rows. induction n as [|n IH]; intros i rows Hi Hn Hin; [by eexists|].
  destruct (Hin 0%nat ltac:(lia)) as (y & idx & Hadr & [p Hp]).
  replace (i + 2 * Z.of_nat 0) with i in Hadr by lia.
  destruct (lookup_lt_is_Some_2 stream (Z.to_nat (i / 8))) as [b Hb].
  { apply Nat2Z.inj_lt. rewrite Z2Nat.id by (apply Z.div_pos; lia).
    apply Z.div_lt_upper_bound; lia. }
  assert (stream_body img stream i rows
          = Done (store rows y idx (Z.lor (Z.land p 252) (data_chunk b (6 - i mod 8)))))
    as Hstep.
  { unfold stream_body, embed_chunk. rewrite Hb, Hadr. simpl. by rewrite Hp. }
  destruct (IH (i + 2)
    (store rows y idx (Z.lor (Z.land p 252) (data_chunk b (6 - i mod 8)))))
    as [rows' Hrun]; [lia | lia | |].
  - intros k Hk. destruct (Hin (S k) ltac:(lia)) as (y' & idx' & Hadr' & Hsome).
    replace (i + 2 * Z.of_nat (S k)) with (i + 2 + 2 * Z.of_nat k) in Hadr' by lia.
    exists y', idx'. split; [done|].
    unfold load in *. by rewrite (sample_store_is_Some _ _ _ _ _ _ _ Hp).
  - exists rows'. cbn [for_steps]. by rewrite Hstep.
Qed.

(** Within the ranges above, [write_data] completes exactly when the
    stream fits the capacity. *)
Lemma write_data_succeeds img filename payload :
  png_ok img → c_string filename → fits_32 filename payload →
  (8 + Z.of_nat (length filename) + Z.of_nat (length payload)) * 8
    <= width img * height img * 6 →
  ∃ img', write_data img filename payload = Done img'.
Proof.
  intros Hok Hname Hfits Hcap.
  rewrite write_data_stream, required_data_bits_exact, max_data_bits_exact by done.
  destruct (Z.ltb_spec (width img * height img * 6)
    ((8 + Z.of_nat (length filename) + Z.of_nat (length payload)) * 8)); [lia|].
  rewrite chunks_written_exact, embedded_stream_serialized by done.
  destruct (stream_loop_runs img (serialized filename payload)
    (4 * (8 + length filename + length payload)) 0 (row_pointers img)) as [rows' Hrun].
  - lia.
  - rewrite serialized_length. lia.
  - intros k Hk. apply png_ok_load; [done|lia].
  - rewrite Hrun. by eexists.
Qed.

Lemma write_data_aborts img filename payload :
  png_ok img → c_string filename → fits_32 filename payload →
  width img * height img * 6
    < (8 + Z.of_nat (length filename) + Z.of_nat (length payload)) * 8 →
  write_data img filename payload
  = Abort (8 + Z.of_nat (length filename) + Z.of_nat (length payload))
          (width img * height img * 6 / 8) (row_pointers img).
Proof.
  intros Hok Hname Hfits Hcap.
  rewrite write_data_stream, required_data_bits_exact, max_data_bits_exact by done.
  destruct (Z.ltb_spec (width img * height img * 6)
    ((8 + Z.of_nat (length filename) + Z.of_nat (length payload)) * 8)); [|lia].
  by rewrite Z.div_mul by lia.
Qed.

Lemma or_into_zeroed bytes :
  or_into (malloc zeroed (Z.of_nat (length bytes))) bytes = bytes.
Proof.
  unfold malloc, or_into. rewrite Nat2Z.id. generalize 0%nat.
  induction bytes as [|b l IH]; intros s; simpl; [done|]. by rewrite IH.
Qed.

(** Round trip, for inputs in range and [malloc] handing out zeroed
    memory in [read_data]. *)
Lemma round_trip_in_range img filename payload :
  png_ok img → c_string filename → Forall is_byte payload →
  fits_32 filename payload →
  (8 + Z.of_nat (length filename) + Z.of_nat (length payload)) * 8
    <= width img * height img * 6 →
  ∃ img', write_data img filename payload = Done img'
          ∧ ∀ name_mem data_mem,
              read_data img' name_mem data_mem
              = Done (or_into (malloc name_mem (Z.of_nat (length filename))) filename,
                      or_into (malloc data_mem (Z.of_nat (length payload))) payload).
Proof.
  intros Hok Hname Hpay Hfits Hcap.
  destruct (write_data_succeeds img filename payload) as [img' Hw]; [done..|].
  exists img'. split; [done|]. intros name_mem data_mem.
  apply read_data_serialized; [by apply c_string_bytes | done | done |].
  rewrite <- (chunks_written_exact filename payload) by done.
  rewrite <- embedded_stream_serialized by done.
  by eapply write_data_carries.
Qed.

Lemma round_trip_zeroed img filename payload :
  png_ok img → c_string filename → Forall is_byte payload →
  fits_32 filename payload →
  (8 + Z.of_nat (length filename) + Z.of_nat (length payload)) * 8
    <= width img * height img * 6 →
  (img' ← write_data img filename payload; read_data img' zeroed zeroed)
  = Done (filename, payload).
Proof.
  intros Hok Hname Hpay Hfits Hcap.
  destruct (round_trip_in_range img filename payload) as (img' & -> & Hr); [done..|].
  rewrite bind_Done, Hr. by rewrite !or_into_zeroed.
Qed.

(** ** What the reading loops look at *)

Section Agreement.
Variables img1 img2 : png.
Hypothesis Hagree : agree_low2 img1 img2.

Lemma sample_address_usable img i y idx :
  0 <= i → sample_address img i = Some (y, idx) →
  usable_sample (color_type img) (Z.to_nat idx).
Proof.
  intros Hi Hadr Hct.
  destruct (sample_address_nonneg img i y idx Hi Hadr) as [_ Hidx].
  apply sample_address_Some in Hadr as (_ & _ & ->).
  rewrite Z2Nat.id by done. rewrite Hct. simpl.
  rewrite Z.add_comm, Z_mod_plus_full.
  pose proof (Z.mod_pos_bound (i / 2) 3 ltac:(lia)).
  rewrite Z.mod_small by lia. lia.
Qed.

Lemma read_chunk_agree i : 0 <= i → read_chunk img1 i = read_chunk img2 i.
Proof.
  intros Hi. destruct Hagree as (Hw & _ & Hct & Hlow).
  unfold read_chunk.
  assert (sample_address img1 i = sample_address img2 i) as <-.
  { unfold sample_address. by rewrite Hw, Hct. }
  destruct (sample_address img1 i) as [[y idx]|] eqn:Hadr; simpl; [|done].
  specialize (Hlow (Z.to_nat y) (Z.to_nat idx)
    (sample_address_usable img1 i y idx Hi Hadr)).
  unfold load, low2 in *.
  destruct (sample (row_pointers img1) _ _), (sample (row_pointers img2) _ _);
    simpl in *; congruence.
Qed.

Lemma size_loop_agree (n : nat) i e acc :
  0 <= i →
  for_steps n i (size_body img1 e) acc = for_steps n i (size_body img2 e) acc.
Proof.
  intros Hi. apply for_steps_ext. intros k s _.
  unfold size_body. by rewrite read_chunk_agree by lia.
Qed.

Lemma byte_loop_agree (n : nat) i st :
  0 <= i →
  for_steps n i (byte_body img1) st = for_steps n i (byte_body img2) st.
Proof.
  intros Hi. apply for_steps_ext. intros k s _.
  unfold byte_body. by rewrite read_chunk_agree by lia.
Qed.

(** [read_data] cannot tell the two pictures apart. *)
Lemma read_data_agree name_mem data_mem :
  read_data img1 name_mem data_mem = read_data img2 name_mem data_mem.
Proof.
  unfold read_data, for_loop, SIG_SIZE_BITS.
  rewrite (size_loop_agree _ 0) by lia.
  destruct (for_steps _ 0 (size_body img2 32) 0) as [fl| |]; [|done..].
  rewrite !bind_Done.
  rewrite (size_loop_agree _ 32) by lia.
  destruct (for_steps _ 32 (size_body img2 (32 * 2)) 0) as [pl| |]; [|done..].
  rewrite !bind_Done.
  rewrite (byte_loop_agree _ (32 * 2)) by lia.
  destruct (for_steps _ (32 * 2) (byte_body img2) _) as [name| |]; [|done..].
  rewrite !bind_Done.
  rewrite byte_loop_agree; [done|].
  apply Z.mod_pos_bound. lia.
Qed.

End Agreement.

(** Overwriting one sample with a value that has the same two low bits,
    or overwriting a sample of the fourth channel, keeps the agreement. *)
Lemma store_agree_low2 img y idx p v :
  0 <= y → 0 <= idx →
  load (row_pointers img) y idx = Some p →
  Z.land v 3 = Z.land p 3 ∨ (color_type img = PNG_COLOR_TYPE_RGBA ∧ idx mod 4 = 3) →
  agree_low2 (with_rows img (store (row_pointers img) y idx v)) img.
Proof.
  intros Hy Hidx Hp Hsame. split_and!; try done.
  intros r c Hus. simpl in *.
  destruct (decide ((Z.to_nat y, Z.to_nat idx) = (r, c))) as [[= <- <-]|Hne].
  - fold (load (store (row_pointers img) y idx v) y idx).
    fold (load (row_pointers img) y idx).
    rewrite (sample_store_eq _ _ _ _ _ Hp), Hp. simpl.
    destruct Hsame as [->|[Hct Halpha]]; [done|].
    exfalso. apply (Hus Hct). by rewrite Z2Nat.id.
  - by rewrite sample_store_ne.
Qed.

(** ** What the writing loops touch *)

Lemma chunks_written_bound data_filename file :
  (chunks_written data_filename file
   <= 4 * length (embedded_stream data_filename file))%nat.
Proof.
  unfold chunks_written, embedded_stream, required_data_bits.
  set (size := wrap32 (Z.of_nat (length file))).
  pose proof (generate_signature_length data_filename size) as Hlen.
  pose proof (generate_signature_size data_filename size) as Hsz.
  pose proof (strlen_bounds data_filename) as Hstr.
  destruct (generate_signature data_filename size) as [sig sz]. cbn [fst snd] in *.
  rewrite length_app.
  pose proof (trip_count_spec 0 (sz * 8) ltac:(lia)) as H1.
  replace (sz * 8 - 0) with (0 + sz * 4 * 2) in H1 by lia.
  rewrite Z_mod_plus_full in H1. specialize (H1 eq_refl).
  pose proof (data_trip_bound (sz * 8) (Z.of_nat (length file)) ltac:(lia) ltac:(lia)) as H2.
  fold size in H2. lia.
Qed.

Lemma write_data_Done img data_filename file img' :
  write_data img data_filename file = Done img' →
  ∃ rows',
    img' = with_rows img rows'
    ∧ for_steps (chunks_written data_filename file) 0
        (stream_body img (embedded_stream data_filename file)) (row_pointers img)
      = Done rows'.
Proof.
  rewrite write_data_stream.
  destruct (_ <? _); [done|].
  destruct (for_steps _ _ _ _) as [rows'| |]; simpl; [|done..].
  intros [= <-]. by exists rows'.
Qed.

(** No chunk is addressed to a sample of the fourth channel. *)
Lemma sample_address_not_alpha img i y idx :
  0 <= i → color_type img = PNG_COLOR_TYPE_RGBA →
  sample_address img i = Some (y, idx) → idx mod 4 ≠ 3.
Proof.
  intros Hi Hct Hadr.
  pose proof (sample_address_usable img i y idx Hi Hadr Hct) as H.
  destruct (sample_address_nonneg img i y idx Hi Hadr) as [_ Hidx].
  by rewrite Z2Nat.id in H.
Qed.

(** Within the ranges above the picture carries the serialized stream of
    the specification, chunk by chunk. *)
Lemma embedded_layout_in_range img filename payload img' (k : nat) :
  c_string filename → fits_32 filename payload →
  write_data img filename payload = Done img' →
  (k < 4 * length (serialized filename payload))%nat →
  ∃ c, chunk_of_stream (serialized filename payload) (Z.of_nat k) = Some c
       ∧ read_chunk img' (2 * Z.of_nat k) = Done c.
Proof.
  intros Hname Hfits Hw Hk.
  apply write_data_carries in Hw.
  rewrite embedded_stream_serialized, chunks_written_exact in Hw by done.
  rewrite serialized_length in Hk.
  destruct (Hw k Hk) as (b & Hb & Hread).
  assert (2 * Z.of_nat k / 8 = Z.of_nat k / 4) as Hq.
  { change 8 with (2 * 4). by rewrite Z.div_mul_cancel_l by lia. }
  exists (chunk_of_byte b (Z.of_nat k mod 4)).
  unfold chunk_of_stream. rewrite <- Hq, Hb. split; [done|].
  rewrite Hread. f_equal.
  rewrite data_chunk_chunk_of_byte by (rewrite Z.mul_comm; apply Z_mod_mult).
  f_equal. f_equal. rewrite Z.mul_comm. apply Z.div_mul. lia.
Qed.

(** * The properties of the specification *)

(** ** The channel address mapper *)

(** C4.  For every slot index [slot_index >= 0] and picture width [> 0], the
    2-bit chunk number [slot_index] (bit position [2 * slot_index]) is
    addressed to channel [slot_index mod 3] of pixel [slot_index / 3], in
    row [pixel_index / width] and column [pixel_index mod width].  The
    index in the row is [col * stride + channel] with [channel < 3], so
    the fourth sample of a 4-channel pixel is never addressed; and this
    is the sample both the embedding step and the extraction step of
    that chunk access. *)
Theorem channel_address_mapping (img : png) (slot_index : Z) :
  0 <= slot_index → 0 < width img →
  let channel := slot_index mod 3 in
  let pixel_index := slot_index / 3 in
  let row := pixel_index / width img in
  let col := pixel_index mod width img in
  let idx := col * pixel_stride (color_type img) + channel in
  locate (2 * slot_index) (width img) = (row, col, channel)
  ∧ sample_address img (2 * slot_index) = Some (row, idx)
  ∧ 0 <= channel < 3
  ∧ 0 <= col < width img
  ∧ idx mod pixel_stride (color_type img) = channel
  ∧ (∀ chunk rows,
       embed_chunk img (2 * slot_index) chunk rows
       = p ← from_option (load rows row idx);
         Done (store rows row idx (Z.lor (Z.land p 252) chunk)))
  ∧ read_chunk img (2 * slot_index)
    = p ← from_option (load (row_pointers img) row idx); Done (Z.land p 3).
Proof.
  intros Hslot Hw. cbv zeta.
  assert (2 * slot_index / 6 = slot_index / 3) as H6.
  { change 6 with (2 * 3). rewrite Z.div_mul_cancel_l by lia. reflexivity. }
  assert (2 * slot_index / 2 = slot_index) as H2.
  { rewrite Z.mul_comm. apply Z.div_mul. lia. }
  assert (locate (2 * slot_index) (width img)
          = (slot_index / 3 / width img, (slot_index / 3) mod width img, slot_index mod 3))
    as Hloc.
  { unfold locate. by rewrite H6, H2. }
  assert (sample_address img (2 * slot_index)
          = Some (slot_index / 3 / width img,
                  (slot_index / 3) mod width img * pixel_stride (color_type img)
                  + slot_index mod 3)) as Hadr.
  { unfold sample_address. rewrite Hloc.
    destruct (Z.leb_spec (width img) 0); [lia|done]. }
  pose proof (Z.mod_pos_bound slot_index 3 ltac:(lia)) as Hc.
  pose proof (Z.mod_pos_bound (slot_index / 3) (width img) Hw) as Hx.
  split_and!; try done; try lia.
  - rewrite Z.add_comm, Z_mod_plus_full.
    apply Z.mod_small. destruct (color_type img); simpl; lia.
  - intros chunk rows. unfold embed_chunk. by rewrite Hadr.
  - unfold read_chunk. by rewrite Hadr.
Qed.

Lemma channel_address_mapping_witness :
  0 <= 7 ∧ 0 < width rgba_4x4
  ∧ sample_address rgba_4x4 (2 * 7) = Some (0, 2 * 4 + 1).
Proof.
  split; [lia|]. split; [simpl; lia|].
  exact (proj1 (proj2 (channel_address_mapping rgba_4x4 7
    ltac:(lia) ltac:(simpl; lia)))).
Defined.

(** ** Frame properties of embedding *)

(** C6.  After a successful [write_data], the sample each embedded chunk
    [k] is addressed to has its two low bits equal to that chunk (the
    chunk of the embedded stream, most significant pair of each byte
    first) and its six high bits as before: [p' & 0xFC = p & 0xFC], and
    for a byte [p] also [p' >> 2 = p >> 2] with [p'] a byte. *)
Theorem embed_preserves_high_bits img data_filename file img' (k : nat) :
  write_data img data_filename file = Done img' →
  (k < chunks_written data_filename file)%nat →
  ∃ y idx p p' b,
    sample_address img (2 * Z.of_nat k) = Some (y, idx)
    ∧ load (row_pointers img) y idx = Some p
    ∧ load (row_pointers img') y idx = Some p'
    ∧ embedded_stream data_filename file !! Z.to_nat (Z.of_nat k / 4) = Some b
    ∧ Z.land p' 3 = data_chunk b (6 - (2 * Z.of_nat k) mod 8)
    ∧ Z.land p' 3 = chunk_of_byte b (Z.of_nat k mod 4)
    ∧ Z.land p' 252 = Z.land p 252
    ∧ (is_byte p → is_byte p' ∧ Z.shiftr p' 2 = Z.shiftr p 2).
Proof.
  intros (rows' & -> & Hrun)%write_data_Done Hk.
  destruct (stream_loop_effect img _ _ 0 _ _ ltac:(lia) eq_refl Hrun) as [_ Hput].
  destruct (Hput k Hk) as (y & idx & p & b & Hadr & Hp & Hb & Hres).
  replace (0 + 2 * Z.of_nat k) with (2 * Z.of_nat k) in * by lia.
  assert ((2 * Z.of_nat k) mod 2 = 0) as Heven by (rewrite Z.mul_comm; apply Z_mod_mult).
  assert (0 <= data_chunk b (6 - (2 * Z.of_nat k) mod 8) < 4) as Hrange.
  { apply data_chunk_range. pose proof (even_mod8 _ Heven). lia. }
  assert (2 * Z.of_nat k / 8 = Z.of_nat k / 4) as Hq.
  { change 8 with (2 * 4). by rewrite Z.div_mul_cancel_l by lia. }
  assert (2 * Z.of_nat k / 2 = Z.of_nat k) as Hh
    by (rewrite Z.mul_comm; apply Z.div_mul; lia).
  rewrite Hq in Hb.
  eexists y, idx, p, _, b. split_and!; [done | done | exact Hres | done | | | |].
  - by apply stored_low.
  - rewrite stored_low by done. rewrite data_chunk_chunk_of_byte by done.
    by rewrite Hh.
  - by apply stored_high.
  - intros Hbyte. by apply stored_byte.
Qed.

Lemma embed_preserves_high_bits_witness :
  ∃ img',
    write_data rgba_4x4 name_a payload_hi = Done img'
    ∧ (5 < chunks_written name_a payload_hi)%nat
    ∧ ∃ y idx p p' b,
        sample_address rgba_4x4 (2 * Z.of_nat 5) = Some (y, idx)
        ∧ load (row_pointers rgba_4x4) y idx = Some p
        ∧ load (row_pointers img') y idx = Some p'
        ∧ embedded_stream name_a payload_hi !! Z.to_nat (Z.of_nat 5 / 4) = Some b
        ∧ Z.land p' 3 = data_chunk b (6 - (2 * Z.of_nat 5) mod 8)
        ∧ Z.land p' 3 = chunk_of_byte b (Z.of_nat 5 mod 4)
        ∧ Z.land p' 252 = Z.land p 252
        ∧ (is_byte p → is_byte p' ∧ Z.shiftr p' 2 = Z.shiftr p 2).
Proof.
  eexists. split; [vm_compute; reflexivity|].
  split; [vm_compute; lia|].
  apply (embed_preserves_high_bits rgba_4x4 name_a payload_hi);
    [vm_compute; reflexivity | vm_compute; lia].
Defined.

(** Samples of the fourth channel are not addressed, so a pass over the
    stream leaves them alone. *)
Lemma stream_loop_alpha img stream (n : nat) rows rows' (r c : nat) :
  color_type img = PNG_COLOR_TYPE_RGBA → Z.of_nat c mod 4 = 3 →
  for_steps n 0 (stream_body img stream) rows = Done rows' →
  sample rows' r c = sample rows r c.
Proof.
  intros Hct Hc Hrun.
  destruct (stream_loop_effect img stream n 0 rows rows' ltac:(lia) eq_refl Hrun)
    as [Hframe _].
  apply Hframe. intros k _ Hadr.
  by apply (sample_address_not_alpha img (0 + 2 * Z.of_nat k) _ _ ltac:(lia) Hct Hadr).
Qed.

(** C7.  For a 4-channel picture and a successful [write_data], every
    sample of the fourth (alpha) channel is the same before and after.
    No bit position is addressed to a fourth-channel sample (all
    accesses of [write_data] and [read_data] go through
    [sample_address]), and [read_data] returns the same for pictures
    that differ in fourth-channel samples only. *)
Theorem alpha_channel_untouched img data_filename file img' :
  color_type img = PNG_COLOR_TYPE_RGBA →
  write_data img data_filename file = Done img' →
  (∀ r c : nat, Z.of_nat c mod 4 = 3 →
     sample (row_pointers img') r c = sample (row_pointers img) r c)
  ∧ (∀ i y idx, 0 <= i → sample_address img i = Some (y, idx) → idx mod 4 ≠ 3)
  ∧ (∀ img2 name_mem data_mem,
       width img2 = width img → height img2 = height img →
       color_type img2 = color_type img →
       (∀ r c : nat, Z.of_nat c mod 4 ≠ 3 →
          sample (row_pointers img2) r c = sample (row_pointers img) r c) →
       read_data img2 name_mem data_mem = read_data img name_mem data_mem).
Proof.
  intros Hct (rows' & -> & Hrun)%write_data_Done.
  split_and!.
  - intros r c Hc. simpl. by eapply stream_loop_alpha.
  - intros i y idx Hi Hadr. by eapply sample_address_not_alpha.
  - intros img2 name_mem data_mem Hw Hh Hct2 Hsame.
    apply read_data_agree. split_and!; try done.
    intros r c Hus. rewrite Hsame; [done|].
    apply Hus. congruence.
Qed.

Lemma alpha_channel_untouched_witness :
  ∃ img',
    color_type rgba_4x4 = PNG_COLOR_TYPE_RGBA
    ∧ write_data rgba_4x4 name_a payload_hi = Done img'
    ∧ ∀ r c : nat, Z.of_nat c mod 4 = 3 →
        sample (row_pointers img') r c = sample (row_pointers rgba_4x4) r c.
Proof.
  eexists. split; [reflexivity|]. split; [vm_compute; reflexivity|].
  apply (alpha_channel_untouched rgba_4x4 name_a payload_hi);
    [reflexivity | vm_compute; reflexivity].
Defined.

(** C8.  After a successful [write_data], with [n] the number of chunks
    of the embedded stream (signature, then payload), only the samples
    chunks [0 .. n-1] are addressed to can differ from the input: any
    other sample, in particular the sample of every slot [k >= n] and
    every fourth-channel sample, is the same as before.  The same holds
    with the number of chunks the loops actually wrote, which is at
    most [n]; the dimensions and the colour type are unchanged. *)
Theorem untouched_tail img data_filename file img' :
  write_data img data_filename file = Done img' →
  let n := (4 * length (embedded_stream data_filename file))%nat in
  (∀ r c : nat,
     (∀ k : nat, (k < n)%nat →
        sample_address img (2 * Z.of_nat k) ≠ Some (Z.of_nat r, Z.of_nat c)) →
     sample (row_pointers img') r c = sample (row_pointers img) r c)
  ∧ (∀ (k : nat) y idx, (n <= k)%nat →
       sample_address img (2 * Z.of_nat k) = Some (y, idx) →
       load (row_pointers img') y idx = load (row_pointers img) y idx)
  ∧ (color_type img = PNG_COLOR_TYPE_RGBA →
     ∀ r c : nat, Z.of_nat c mod 4 = 3 →
       sample (row_pointers img') r c = sample (row_pointers img) r c)
  ∧ (chunks_written data_filename file <= n)%nat
  ∧ (∀ (k : nat) y idx, (chunks_written data_filename file <= k)%nat →
       sample_address img (2 * Z.of_nat k) = Some (y, idx) →
       load (row_pointers img') y idx = load (row_pointers img) y idx)
  ∧ width img' = width img ∧ height img' = height img
  ∧ color_type img' = color_type img.
Proof.
  intros (rows' & -> & Hrun)%write_data_Done n.
  pose proof (chunks_written_bound data_filename file) as Hbound. fold n in Hbound.
  destruct (stream_loop_effect img _ _ 0 _ _ ltac:(lia) eq_refl Hrun) as [Hframe _].
  assert (∀ r c : nat,
    (∀ k : nat, (k < chunks_written data_filename file)%nat →
       sample_address img (2 * Z.of_nat k) ≠ Some (Z.of_nat r, Z.of_nat c)) →
    sample rows' r c = sample (row_pointers img) r c) as Hframe'.
  { intros r c Hfree. apply Hframe. intros k Hk.
    replace (0 + 2 * Z.of_nat k) with (2 * Z.of_nat k) by lia. by apply Hfree. }
  assert (∀ (k : nat) y idx, (chunks_written data_filename file <= k)%nat →
    sample_address img (2 * Z.of_nat k) = Some (y, idx) →
    load rows' y idx = load (row_pointers img) y idx) as Htail.
  { intros k y idx Hk Hadr. unfold load. apply Hframe'.
    intros k' Hk' Hadr'.
    destruct (sample_address_nonneg img (2 * Z.of_nat k) y idx ltac:(lia) Hadr)
      as [Hy Hidx].
    rewrite !Z2Nat.id in Hadr' by done.
    assert (2 * Z.of_nat k' = 2 * Z.of_nat k); [|lia].
    eapply (sample_address_inj img); [lia | lia | | | exact Hadr' | exact Hadr];
      rewrite Z.mul_comm; apply Z_mod_mult. }
  split_and!; try done.
  - intros r c Hfree. apply Hframe'. intros k Hk. apply Hfree. lia.
  - intros k y idx Hk. apply Htail. lia.
  - intros Hct r c Hc. simpl. by eapply stream_loop_alpha.
Qed.

Lemma untouched_tail_witness :
  ∃ img',
    write_data rgba_4x4 name_a payload_hi = Done img'
    ∧ ∀ (k : nat) y idx,
        (4 * length (embedded_stream name_a payload_hi) <= k)%nat →
        sample_address rgba_4x4 (2 * Z.of_nat k) = Some (y, idx) →
        load (row_pointers img') y idx = load (row_pointers rgba_4x4) y idx.
Proof.
  eexists. split; [vm_compute; reflexivity|].
  exact (proj1 (proj2 (untouched_tail rgba_4x4 name_a payload_hi _
    ltac:(vm_compute; reflexivity)))).
Defined.

(** ** The two reassembly formulas of [read_data] *)

(** C9.  Over the chunks of either header field, the header formula
    (or-ing chunk [k] shifted by [30 - 2k] into one 32-bit accumulator
    started at 0) and the byte formula (or-ing each chunk shifted by
    [6 - i mod 8] into successive bytes started at 0) rebuild the same
    four bytes, most significant first: the bytes of the header value
    are the bytes the byte loop leaves in its buffer, both loops fail
    together, and the header value is below 2^32, hence determined by
    those bytes. *)
Theorem header_and_byte_formulas_agree img :
  be32 <$> for_loop 0 SIG_SIZE_BITS (size_body img SIG_SIZE_BITS) 0
    = fst <$> for_loop 0 SIG_SIZE_BITS (byte_body img) ([0; 0; 0; 0], 0)
  ∧ be32 <$> for_loop SIG_SIZE_BITS (SIG_SIZE_BITS * 2)
               (size_body img (SIG_SIZE_BITS * 2)) 0
    = fst <$> for_loop SIG_SIZE_BITS (SIG_SIZE_BITS * 2) (byte_body img)
                ([0; 0; 0; 0], 0)
  ∧ (∀ v, for_loop 0 SIG_SIZE_BITS (size_body img SIG_SIZE_BITS) 0 = Done v →
          0 <= v < 2 ^ 32)
  ∧ (∀ v, for_loop SIG_SIZE_BITS (SIG_SIZE_BITS * 2)
            (size_body img (SIG_SIZE_BITS * 2)) 0 = Done v →
          0 <= v < 2 ^ 32).
Proof.
  unfold for_loop, SIG_SIZE_BITS.
  change (trip_count 0 32) with 16%nat. change (trip_count 32 (32 * 2)) with 16%nat.
  change (32 * 2) with 64.
  pose proof (size_loop_bytes img 0 0 eq_refl ltac:(lia)) as H1.
  pose proof (size_loop_bytes img 32 0 eq_refl ltac:(lia)) as H2.
  change (0 + 32) with 32 in H1. change (32 + 32) with 64 in H2.
  change (be32 0) with [0; 0; 0; 0] in H1, H2.
  destruct (for_steps 16 0 (size_body img 32) 0) as [v1| |],
    (for_steps 16 0 (byte_body img) ([0; 0; 0; 0], 0)) as [st1| |];
    simpl in H1; try done;
  destruct (for_steps 16 32 (size_body img 64) 0) as [v2| |],
    (for_steps 16 32 (byte_body img) ([0; 0; 0; 0], 0)) as [st2| |];
    simpl in H2; try done;
  repeat match goal with
         | H : _ ∧ _ |- _ => destruct H
         end;
  split_and!; simpl; try congruence; try (intros ? [= <-]; done); try done.
Qed.

(** * Where the code departs from the specification *)

(** ** Buffers that are or-ed into without being cleared

    [read_data] clears the two header accumulators
    ([data_filename_length = 0, data_file_size = 0]) but or-s the file
    name and the payload into memory as [malloc] returned it. *)

(** C1.  On a 4x4 RGB picture (capacity 96 bits) the file name "a" and
    the payload "hi" (88 bits with the header) are embedded; extraction
    returns them when [malloc] hands out zeroed memory, but with memory
    whose bytes are 4 it returns "e" and "lm": the round trip does not
    hold for the code. *)
Theorem round_trip_uninitialised_buffers :
  (8 + Z.of_nat (length name_a) + Z.of_nat (length payload_hi)) * 8
    <= width rgb_4x4 * height rgb_4x4 * 6
  ∧ ∃ img',
      write_data rgb_4x4 name_a payload_hi = Done img'
      ∧ read_data img' zeroed zeroed = Done (name_a, payload_hi)
      ∧ read_data img' stale stale = Done ([101], [108; 109]).
Proof.
  split; [vm_compute; discriminate|].
  eexists. split; [vm_compute; reflexivity|].
  split; vm_compute; reflexivity.
Qed.

(** The two pictures that carry "hi" under the name "a", one made from
    samples 0 and one from samples 200, differ in the six high bits of
    their samples only. *)
Lemma carriers_agree :
  agree_low2 (embedded_a_hi rgb_4x4) (embedded_a_hi rgb_4x4_light).
Proof.
  split; [vm_compute; reflexivity|]. split; [vm_compute; reflexivity|].
  split; [vm_compute; reflexivity|]. intros r c _.
  do 4 (destruct r as [|r];
        [do 12 (destruct c as [|c]; [vm_compute; reflexivity|]);
         vm_compute; reflexivity|]).
  vm_compute. reflexivity.
Qed.

(** C10.  What [read_data] returns is not determined by the two low
    bits of the samples: it also depends on what the memory [malloc]
    hands out holds.  [write_data] embeds "hi" under the name "a" into
    the 4x4 RGB picture of samples 0 and into the one of samples 200;
    the two results have the same dimensions and colour type and agree
    on the two low bits of every sample.  From the first, extraction
    returns "a" and "hi" with zeroed memory and "e" and "lm" with
    memory whose bytes are 4; from the second, with that memory, "e"
    and "lm" as well. *)
Theorem extraction_depends_on_memory :
  write_data rgb_4x4 name_a payload_hi = Done (embedded_a_hi rgb_4x4)
  ∧ write_data rgb_4x4_light name_a payload_hi = Done (embedded_a_hi rgb_4x4_light)
  ∧ agree_low2 (embedded_a_hi rgb_4x4) (embedded_a_hi rgb_4x4_light)
  ∧ read_data (embedded_a_hi rgb_4x4) zeroed zeroed = Done (name_a, payload_hi)
  ∧ read_data (embedded_a_hi rgb_4x4) stale stale = Done ([101], [108; 109])
  ∧ read_data (embedded_a_hi rgb_4x4_light) stale stale = Done ([101], [108; 109])
  ∧ read_data (embedded_a_hi rgb_4x4) zeroed zeroed
    ≠ read_data (embedded_a_hi rgb_4x4_light) stale stale.
Proof.
  split; [vm_compute; reflexivity|]. split; [vm_compute; reflexivity|].
  split; [exact carriers_agree|].
  split; [vm_compute; reflexivity|]. split; [vm_compute; reflexivity|].
  split; [vm_compute; reflexivity|]. vm_compute. discriminate.
Qed.

(** ** Lengths that are not checked against the picture

    [write_data] compares the required bits with the capacity before it
    writes; [read_data] has no such test. *)

Section NoAbort.

Lemma for_steps_no_abort {St} (n : nat) i (body : Z → St → outcome St) s r f m :
  (∀ i s r f m, body i s ≠ Abort r f m) → for_steps n i body s ≠ Abort r f m.
Proof.
  intros Hbody. revert i s. induction n as [|n IH]; intros i s; simpl; [done|].
  destruct (body i s) as [s1| |] eqn:Hs; simpl; [apply IH | | done].
  by destruct (Hbody i s required free mem).
Qed.

Lemma read_chunk_no_abort img i r f m : read_chunk img i ≠ Abort r f m.
Proof.
  unfold read_chunk.
  destruct (sample_address img i) as [[y idx]|]; simpl; [|done].
  by destruct (load (row_pointers img) y idx).
Qed.

Lemma size_body_no_abort img e i acc r f m : size_body img e i acc ≠ Abort r f m.
Proof.
  unfold size_body.
  pose proof (read_chunk_no_abort img i) as H.
  destruct (read_chunk img i); simpl; [done | by destruct (H required free mem) | done].
Qed.

Lemma byte_body_no_abort img i st r f m : byte_body img i st ≠ Abort r f m.
Proof.
  unfold byte_body.
  pose proof (read_chunk_no_abort img i) as H.
  destruct (read_chunk img i); simpl; [| by destruct (H required free mem) | done].
  by destruct (st.1 !! Z.to_nat st.2).
Qed.

(** [read_data] has no failure of its own: it completes or runs into
    undefined behaviour. *)
Lemma read_data_no_abort img name_mem data_mem r f m :
  read_data img name_mem data_mem ≠ Abort r f m.
Proof.
  unfold read_data, for_loop, SIG_SIZE_BITS.
  repeat match goal with
  | |- context [for_steps ?n ?i ?b ?s] =>
      let H := fresh "Hloop" in
      destruct (for_steps n i b s) as [?| |] eqn:H;
      [ rewrite bind_Done; cbv zeta
      | exfalso; revert H; apply for_steps_no_abort; intros;
        first [apply size_body_no_abort | apply byte_body_no_abort]
      | done ]
  end.
  done.
Qed.

End NoAbort.

(** C2.  [read_data] does not validate the decoded lengths.  On
    [truncated_4x3] the lengths need 80 bits of a 72-bit picture; the
    run does not stop with an error but reads [row_pointers[3]], outside
    the three rows.  No run of [read_data] ends in an abort.  On
    [wrapping_4x3] the lengths need 2^32 + 72 bits; the end position
    wraps to 72 in 32 bits, and the run completes with a file name and a
    payload buffer of 2^29 bytes that was never written to. *)
Theorem read_data_does_not_validate :
  ((1 + 1) * 8 + 64 > width truncated_4x3 * height truncated_4x3 * 6
   ∧ for_loop 0 SIG_SIZE_BITS (size_body truncated_4x3 SIG_SIZE_BITS) 0 = Done 1
   ∧ for_loop SIG_SIZE_BITS (SIG_SIZE_BITS * 2)
       (size_body truncated_4x3 (SIG_SIZE_BITS * 2)) 0 = Done 1
   ∧ read_data truncated_4x3 zeroed zeroed = Undefined)
  ∧ (∀ img name_mem data_mem required free mem,
       read_data img name_mem data_mem ≠ Abort required free mem)
  ∧ ((1 + 536870912) * 8 + 64 > width wrapping_4x3 * height wrapping_4x3 * 6
     ∧ ∀ data_mem,
         read_data wrapping_4x3 zeroed data_mem
         = Done ([97], malloc data_mem 536870912)).
Proof.
  split; [|split].
  - split; [vm_compute; reflexivity|]. split_and!; vm_compute; reflexivity.
  - intros. apply read_data_no_abort.
  - split; [vm_compute; reflexivity|]. intros data_mem.
    unfold read_data, SIG_SIZE_BITS.
    assert (for_loop 0 32 (size_body wrapping_4x3 32) 0 = Done 1) as ->
      by (vm_compute; reflexivity).
    rewrite bind_Done.
    assert (for_loop 32 (32 * 2) (size_body wrapping_4x3 (32 * 2)) 0 = Done 536870912)
      as -> by (vm_compute; reflexivity).
    rewrite bind_Done. cbv zeta.
    assert (for_loop (32 * 2) (wrap32 (32 * 2 + 1 * 8)) (byte_body wrapping_4x3)
              (malloc zeroed 1, 0) = Done ([97], 1)) as ->
      by (vm_compute; reflexivity).
    rewrite bind_Done. unfold for_loop.
    change (trip_count (wrap32 (32 * 2 + 1 * 8))
              (wrap32 (32 * 2 + 1 * 8 + 536870912 * 8))) with 0%nat.
    reflexivity.
Qed.

(** ** A size that is multiplied in 32 bits

    [size] is a [uint32_t], so in
    [required_data_bits = sig_size * 8 + size * 8] the product [size * 8]
    is taken modulo 2^32 before it is widened to [size_t]. *)

Section HalfGigabyte.

Lemma length_half_gigabyte : Z.of_nat (length half_gigabyte) = 536870912.
Proof. unfold half_gigabyte. rewrite length_replicate. lia. Qed.

Lemma required_half_gigabyte : required_data_bits name_a half_gigabyte = 72.
Proof. unfold required_data_bits. rewrite length_half_gigabyte. reflexivity. Qed.

Lemma chunks_half_gigabyte : chunks_written name_a half_gigabyte = 36%nat.
Proof.
  unfold chunks_written. rewrite required_half_gigabyte, length_half_gigabyte.
  reflexivity.
Qed.

Lemma stream_half_gigabyte :
  embedded_stream name_a half_gigabyte
  = [0; 0; 0; 1; 32; 0; 0; 0; 97] ++ half_gigabyte.
Proof. unfold embedded_stream. rewrite length_half_gigabyte. reflexivity. Qed.

Lemma stream_body_prefix img sig rest i rows :
  0 <= i → i / 8 < Z.of_nat (length sig) →
  stream_body img (sig ++ rest) i rows = stream_body img sig i rows.
Proof.
  intros Hi Hlt. unfold stream_body.
  rewrite lookup_app_l; [done|].
  apply Nat2Z.inj_lt. rewrite Z2Nat.id by (apply Z.div_pos; lia). done.
Qed.

Lemma write_data_half_gigabyte :
  write_data rgb_4x4 name_a half_gigabyte = signature_only.
Proof.
  rewrite write_data_stream, required_half_gigabyte, chunks_half_gigabyte,
    stream_half_gigabyte.
  change (max_data_bits rgb_4x4 <? 72) with false. cbv iota.
  rewrite (for_steps_ext 36 0 _ (stream_body rgb_4x4 [0; 0; 0; 1; 32; 0; 0; 0; 97])).
  - vm_compute. reflexivity.
  - intros k rows Hk. apply stream_body_prefix; [lia|].
    apply Z.div_lt_upper_bound; simpl; lia.
Qed.

End HalfGigabyte.

(** C3.  The capacity test misses a payload of 2^29 bytes: on the 4x4 RGB
    picture (capacity 96 bits = 12 bytes) the stream needs
    [(8 + 1 + 2^29) * 8] bits, yet [required_data_bits] is computed as
    72, [write_data] does not abort and the picture is modified. *)
Theorem capacity_check_wraps :
  width rgb_4x4 * height rgb_4x4 * 6
    < (8 + Z.of_nat (length name_a) + Z.of_nat (length half_gigabyte)) * 8
  ∧ required_data_bits name_a half_gigabyte = 72
  ∧ ∃ img',
      write_data rgb_4x4 name_a half_gigabyte = Done img'
      ∧ row_pointers img' ≠ row_pointers rgb_4x4.
Proof.
  split; [rewrite length_half_gigabyte; vm_compute; reflexivity|].
  split; [apply required_half_gigabyte|].
  rewrite write_data_half_gigabyte. eexists. split; [reflexivity|].
  vm_compute. discriminate.
Qed.

(** C5.  With the same payload of 2^29 bytes the embedded stream stops
    after the signature: 36 chunks are written of a stream of
    [9 + 2^29] bytes, and the sample of chunk 36, where the first pair
    (3) of the first payload byte belongs, still holds the pair 0 of
    the input picture. *)
Theorem payload_not_embedded :
  ∃ img',
    write_data rgb_4x4 name_a half_gigabyte = Done img'
    ∧ chunks_written name_a half_gigabyte = 36%nat
    ∧ length (serialized name_a half_gigabyte) = (9 + Z.to_nat 536870912)%nat
    ∧ chunk_of_stream (serialized name_a half_gigabyte) 36 = Some 3
    ∧ read_chunk img' (2 * 36) = Done 0.
Proof.
  rewrite write_data_half_gigabyte. eexists. split; [reflexivity|].
  split; [apply chunks_half_gigabyte|].
  split; [|split].
  - rewrite serialized_length. unfold half_gigabyte.
    rewrite length_replicate. reflexivity.
  - unfold chunk_of_stream.
    change (Z.to_nat (36 / 4)) with (8 + length name_a + 0)%nat.
    rewrite serialized_lookup_4.
    + unfold half_gigabyte. rewrite lookup_replicate_2 by lia. reflexivity.
    + apply Nat2Z.inj_lt. rewrite length_half_gigabyte. lia.
  - vm_compute. reflexivity.
Qed.

(** * Further properties of the code *)

(** ** generate_signature *)

(** X1.  For a file name that is a C string of bytes, [generate_signature]
    returns the length of the name in four bytes, most significant
    first, then [file_size] in four bytes, most significant first, then
    the bytes of the name; the length it returns is 8 plus the length of
    the name and is the number of bytes of the signature. *)
Theorem signature_bytes filename file_size :
  c_string filename →
  (generate_signature filename file_size).1
    = be32 (Z.of_nat (length filename)) ++ be32 file_size ++ filename
  ∧ (generate_signature filename file_size).2 = 8 + Z.of_nat (length filename)
  ∧ Z.of_nat (length (generate_signature filename file_size).1)
    = (generate_signature filename file_size).2.
Proof.
  intros Hname. split_and!.
  - by apply generate_signature_layout.
  - by rewrite generate_signature_size, c_string_strlen.
  - apply generate_signature_length.
Qed.

Lemma signature_bytes_witness :
  c_string name_a
  ∧ (generate_signature name_a 2).1 = be32 1 ++ be32 2 ++ name_a.
Proof.
  assert (c_string name_a) as H.
  { repeat constructor; unfold is_byte; lia. }
  split; [exact H|].
  exact (proj1 (signature_bytes name_a 2 H)).
Defined.

(** ** The capacity test of write_data *)

(** X2.  For a well-formed picture and a stream shorter than 2^32 bits:
    if the stream fits ([required <= capacity], equality included)
    [write_data] completes; otherwise it aborts before any write,
    reporting the required bytes and [capacity / 8] free bytes, the
    pixel rows as they were. *)
Theorem capacity_boundary_in_range img filename payload :
  png_ok img → c_string filename → fits_32 filename payload →
  let required := (8 + Z.of_nat (length filename) + Z.of_nat (length payload)) * 8 in
  let capacity := width img * height img * 6 in
  (required <= capacity → ∃ img', write_data img filename payload = Done img')
  ∧ (capacity < required →
     write_data img filename payload
     = Abort (required / 8) (capacity / 8) (row_pointers img)).
Proof.
  intros Hok Hname Hfits required capacity. split.
  - intros Hle. by apply write_data_succeeds.
  - intros Hlt. rewrite write_data_aborts by done.
    unfold required. by rewrite Z.div_mul by lia.
Qed.

Lemma png_ok_blank (w h : nat) c v :
  (0 < w)%nat → (0 < h)%nat → is_byte v →
  Z.of_nat w * Z.of_nat h * pixel_stride c < 2 ^ 63 →
  png_ok (blank w h c v).
Proof.
  intros Hw Hh Hv Hmem. split; simpl; try lia.
  - rewrite repeat_length. lia.
  - apply Forall_forall. intros row Hrow%list_elem_of_In%repeat_spec. subst row.
    rewrite repeat_length. destruct c; simpl; lia.
  - apply Forall_forall. intros row Hrow%list_elem_of_In%repeat_spec. subst row.
    apply Forall_forall. by intros x ->%list_elem_of_In%repeat_spec.
Qed.

Lemma png_ok_rgb_4x4 : png_ok rgb_4x4.
Proof. apply png_ok_blank; [lia | lia | unfold is_byte; lia | simpl; lia]. Qed.

Lemma png_ok_rgba_4x4 : png_ok rgba_4x4.
Proof. apply png_ok_blank; [lia | lia | unfold is_byte; lia | simpl; lia]. Qed.

Lemma c_string_name_a : c_string name_a.
Proof. repeat constructor; unfold is_byte; lia. Qed.

Lemma bytes_payload_hi : Forall is_byte payload_hi.
Proof. repeat constructor; unfold is_byte; lia. Qed.

Lemma fits_32_a_hi : fits_32 name_a payload_hi.
Proof. unfold fits_32. simpl. lia. Qed.

Lemma capacity_boundary_in_range_witness :
  png_ok rgb_4x4 ∧ c_string name_a ∧ fits_32 name_a payload_hi
  ∧ ∃ img', write_data rgb_4x4 name_a payload_hi = Done img'.
Proof.
  split; [exact png_ok_rgb_4x4|]. split; [exact c_string_name_a|].
  split; [exact fits_32_a_hi|].
  apply (proj1 (capacity_boundary_in_range rgb_4x4 name_a payload_hi
    png_ok_rgb_4x4 c_string_name_a fits_32_a_hi)).
  vm_compute. discriminate.
Defined.

(** ** write_data stays inside the picture *)

Lemma chunks_written_required data_filename file :
  strlen data_filename < 2 ^ 60 →
  2 * Z.of_nat (chunks_written data_filename file)
  = required_data_bits data_filename file.
Proof.
  intros Hlen. unfold chunks_written, required_data_bits.
  rewrite !generate_signature_size.
  pose proof (strlen_bounds data_filename) as Hstr.
  set (sz := 8 + strlen data_filename).
  set (w := wrap32 (wrap32 (Z.of_nat (length file)) * 8)).
  assert (0 <= w < 2 ^ 32) as Hw by (apply Z.mod_pos_bound; lia).
  assert (w mod 2 = 0) as Hweven.
  { unfold w, wrap32 at 1.
    rewrite Z.mod_mod_divide by (exists (2 ^ 31); reflexivity).
    replace (wrap32 (Z.of_nat (length file)) * 8)
      with (0 + wrap32 (Z.of_nat (length file)) * 4 * 2) by lia.
    by rewrite Z_mod_plus_full. }
  rewrite wrap64_small by lia.
  pose proof (trip_count_spec 0 (sz * 8) ltac:(lia)) as H1.
  replace (sz * 8 - 0) with (0 + sz * 4 * 2) in H1 by lia.
  rewrite Z_mod_plus_full in H1. specialize (H1 eq_refl).
  pose proof (trip_count_spec (sz * 8) (sz * 8 + w) ltac:(lia)) as H2.
  replace (sz * 8 + w - sz * 8) with w in H2 by lia.
  specialize (H2 Hweven). lia.
Qed.

(** X3.  Whatever the size of the data file, [write_data] on a
    well-formed picture never accesses a sample outside the picture:
    it completes, or it aborts at the capacity test with the pixel rows
    as they were.  (The file name is shorter than 2^60 characters.) *)
Theorem write_data_stays_in_picture img data_filename file :
  png_ok img → strlen data_filename < 2 ^ 60 →
  (∃ img', write_data img data_filename file = Done img')
  ∨ write_data img data_filename file
    = Abort (required_data_bits data_filename file / 8) (max_data_bits img / 8)
            (row_pointers img).
Proof.
  intros Hok Hlen. rewrite write_data_stream.
  destruct (Z.ltb_spec (max_data_bits img) (required_data_bits data_filename file))
    as [Hlt|Hge]; [by right|left].
  pose proof (chunks_written_required data_filename file Hlen) as Hn.
  pose proof (chunks_written_bound data_filename file) as Hbound.
  rewrite max_data_bits_exact in Hge by done.
  destruct (stream_loop_runs img (embedded_stream data_filename file)
    (chunks_written data_filename file) 0 (row_pointers img)) as [rows' Hrun].
  - lia.
  - lia.
  - intros k Hk. apply png_ok_load; [done|lia].
  - rewrite Hrun. by eexists.
Qed.

Lemma write_data_stays_in_picture_witness :
  png_ok rgb_4x4 ∧ strlen name_a < 2 ^ 60
  ∧ ((∃ img', write_data rgb_4x4 name_a half_gigabyte = Done img')
     ∨ write_data rgb_4x4 name_a half_gigabyte
       = Abort (required_data_bits name_a half_gigabyte / 8)
               (max_data_bits rgb_4x4 / 8) (row_pointers rgb_4x4)).
Proof.
  split; [exact png_ok_rgb_4x4|]. split; [vm_compute; reflexivity|].
  apply (write_data_stays_in_picture rgb_4x4 name_a half_gigabyte png_ok_rgb_4x4).
  vm_compute. reflexivity.
Defined.

(** ** Round trip and layout within the 32-bit range *)

(** X4.  For a well-formed picture, a C-string file name, a payload of
    bytes, a stream shorter than 2^32 bits and within the capacity:
    [write_data] completes, and [read_data] on its result returns each
    buffer as the memory [malloc] handed out or-ed, byte by byte, with
    the embedded bytes; with zeroed memory that is the file name and
    the payload. *)
Theorem round_trip_with_memory img filename payload :
  png_ok img → c_string filename → Forall is_byte payload →
  fits_32 filename payload →
  (8 + Z.of_nat (length filename) + Z.of_nat (length payload)) * 8
    <= width img * height img * 6 →
  ∃ img',
    write_data img filename payload = Done img'
    ∧ (∀ name_mem data_mem,
         read_data img' name_mem data_mem
         = Done (or_into (malloc name_mem (Z.of_nat (length filename))) filename,
                 or_into (malloc data_mem (Z.of_nat (length payload))) payload))
    ∧ read_data img' zeroed zeroed = Done (filename, payload).
Proof.
  intros Hok Hname Hpay Hfits Hcap.
  destruct (round_trip_in_range img filename payload) as (img' & Hw & Hr); [done..|].
  exists img'. split_and!; [done..|].
  by rewrite Hr, !or_into_zeroed.
Qed.

Lemma round_trip_with_memory_witness :
  ∃ img',
    write_data rgb_4x4 name_a payload_hi = Done img'
    ∧ read_data img' zeroed zeroed = Done (name_a, payload_hi).
Proof.
  destruct (round_trip_with_memory rgb_4x4 name_a payload_hi
    png_ok_rgb_4x4 c_string_name_a bytes_payload_hi fits_32_a_hi
    ltac:(vm_compute; discriminate)) as (img' & Hw & _ & Hr).
  exists img'. by split.
Defined.

(** X6.  For a C-string file name and a stream shorter than 2^32 bits,
    after a completed [write_data] the sample of every slot [k] below
    the chunk count of the stream holds, in its two low bits, chunk [k]
    of the stream "length of the name, length of the payload (four
    bytes each, most significant first), name, payload", each byte cut
    into four chunks from the most significant pair down. *)
Theorem layout_in_range img filename payload img' (k : nat) :
  c_string filename → fits_32 filename payload →
  write_data img filename payload = Done img' →
  (k < 4 * length (serialized filename payload))%nat →
  ∃ c, chunk_of_stream (serialized filename payload) (Z.of_nat k) = Some c
       ∧ read_chunk img' (2 * Z.of_nat k) = Done c.
Proof. apply embedded_layout_in_range. Qed.

Lemma layout_in_range_witness :
  ∃ img',
    write_data rgb_4x4 name_a payload_hi = Done img'
    ∧ ∃ c, chunk_of_stream (serialized name_a payload_hi) (Z.of_nat 40) = Some c
           ∧ read_chunk img' (2 * Z.of_nat 40) = Done c.
Proof.
  eexists. split; [vm_compute; reflexivity|].
  apply (layout_in_range rgb_4x4 name_a payload_hi _ 40
    c_string_name_a fits_32_a_hi); [vm_compute; reflexivity | vm_compute; lia].
Defined.

(** ** The address scheme *)

(** X7.  Two different slots are never addressed to the same sample:
    for a picture of positive width the address of bit position
    [2 * j] determines [j]. *)
Theorem distinct_slots_distinct_samples img (j k : Z) :
  0 < width img → 0 <= j → 0 <= k →
  sample_address img (2 * j) = sample_address img (2 * k) → j = k.
Proof.
  intros Hw Hj Hk Heq.
  destruct (sample_address_width img (2 * k) Hw) as [a Ha].
  rewrite Ha in Heq.
  assert (2 * j = 2 * k); [|lia].
  apply (sample_address_inj img _ _ a); try done; try lia;
    rewrite Z.mul_comm; apply Z_mod_mult.
Qed.

Lemma distinct_slots_distinct_samples_witness :
  0 < width rgba_4x4 ∧ 0 <= 3
  ∧ sample_address rgba_4x4 (2 * 3) = sample_address rgba_4x4 (2 * 3) ∧ 3 = 3.
Proof.
  split; [simpl; lia|]. split; [lia|]. split; [reflexivity|].
  apply (distinct_slots_distinct_samples rgba_4x4 3 3);
    [simpl; lia | lia | lia | reflexivity].
Defined.

(** X8.  In a well-formed picture the slots that are addressed to a
    sample of the picture are exactly those below
    [width * height * 3]: the capacity [width * height * 6] of
    [write_data] counts the bits of the samples the address lines can
    reach, and the first slot beyond it lies outside the rows. *)
Theorem capacity_is_address_space img (k : Z) :
  png_ok img → 0 <= k →
  (∃ y idx p, sample_address img (2 * k) = Some (y, idx)
              ∧ load (row_pointers img) y idx = Some p)
  ↔ k < width img * height img * 3.
Proof.
  intros Hok Hk. split.
  - intros (y & idx & p & Hadr & Hp).
    destruct Hok as [Hw Hh Hrows _ _ _].
    destruct (sample_address_nonneg img (2 * k) y idx ltac:(lia) Hadr) as [Hy _].
    apply sample_address_Some in Hadr as (_ & -> & _).
    unfold load, sample in Hp.
    destruct (row_pointers img !! Z.to_nat (2 * k / 6 / width img)) as [row|] eqn:Hrow;
      [|done].
    apply lookup_lt_Some in Hrow.
    assert (2 * k / 6 / width img < height img) as Hlt by lia.
    pose proof (Z.div_mod (2 * k / 6) (width img) ltac:(lia)) as Hd1.
    pose proof (Z.mod_pos_bound (2 * k / 6) (width img) Hw) as Hb1.
    pose proof (Z.div_mod (2 * k) 6 ltac:(lia)) as Hd2.
    pose proof (Z.mod_pos_bound (2 * k) 6 ltac:(lia)) as Hb2.
    assert (2 * k / 6 < width img * height img) by nia.
    lia.
  - intros Hlt.
    destruct (png_ok_load img (2 * k) Hok ltac:(lia)) as (y & idx & Hadr & [p Hp]).
    by exists y, idx, p.
Qed.

Lemma capacity_is_address_space_witness :
  png_ok rgb_4x4 ∧ 0 <= 48
  ∧ ((∃ y idx p, sample_address rgb_4x4 (2 * 48) = Some (y, idx)
                 ∧ load (row_pointers rgb_4x4) y idx = Some p)
     ↔ 48 < width rgb_4x4 * height rgb_4x4 * 3).
Proof.
  split; [exact png_ok_rgb_4x4|]. split; [lia|].
  apply (capacity_is_address_space rgb_4x4 48 png_ok_rgb_4x4). lia.
Defined.

(** ** The overwrite question *)

Lemma asks_again_false (c : Z) :
  asks_again c = false ↔ c = 121 ∨ c = 89 ∨ c = 110 ∨ c = 78 ∨ c = EOF.
Proof.
  unfold asks_again, EOF.
  destruct (Z.eqb_spec c 121), (Z.eqb_spec c 89), (Z.eqb_spec c 110),
    (Z.eqb_spec c 78), (Z.eqb_spec c (-1)); simpl; split; intros; try done;
    try lia; auto 6.
Qed.

(** X9.  [confirm_file_overwrite] is decided by the first character
    read that is one of [y], [Y], [n], [N] or compares equal to [EOF]:
    the characters before it are asked over, those after it are not
    looked at, and whatever [response] held at first plays no part.
    The function ends in "user exit" exactly for [n] and [N]; [y], [Y]
    and the character equal to [EOF] let the caller overwrite. *)
Theorem first_decisive_answer_decides response before c rest :
  Forall (λ a, asks_again a = true) before →
  c = 121 ∨ c = 89 ∨ c = 110 ∨ c = 78 ∨ c = EOF →
  confirm_file_overwrite response (before ++ c :: rest)
  = (if decide (c = 110 ∨ c = 78) then user_exit else proceeds).
Proof.
  intros Hbefore Hc%asks_again_false. revert response.
  induction Hbefore as [|a before Ha _ IH]; intros response; simpl.
  - rewrite Hc. unfold after_loop.
    destruct (Z.eqb_spec c 78), (Z.eqb_spec c 110); simpl;
      destruct (decide (c = 110 ∨ c = 78)); try done; lia.
  - rewrite Ha. apply IH.
Qed.

Lemma first_decisive_answer_decides_witness :
  confirm_file_overwrite 0 ([10; 113] ++ 89 :: [110]) = proceeds.
Proof.
  apply (first_decisive_answer_decides 0 [10; 113] 89 [110]).
  - repeat constructor.
  - right. left. reflexivity.
Defined.

(** X10.  The question has no default answer, whatever its "(y/N)"
    suggests: when at least one character is read and none of the
    characters read is [y], [Y], [n], [N] or equal to [EOF] (a bare
    newline is such a character), the loop does not end. *)
Theorem no_default_answer response answers :
  answers ≠ [] → Forall (λ a, asks_again a = true) answers →
  confirm_file_overwrite response answers = asks_forever.
Proof.
  intros Hne Hall. revert response Hne.
  induction Hall as [|a answers Ha Hall IH]; intros response Hne; [done|].
  simpl. rewrite Ha. destruct answers as [|b answers].
  - simpl. by rewrite Ha.
  - by apply IH.
Qed.

Lemma no_default_answer_witness :
  confirm_file_overwrite 121 [10; 10] = asks_forever.
Proof.
  apply (no_default_answer 121 [10; 10]); [discriminate | repeat constructor].
Defined.

(** ** The command line *)

Lemma handle_flags_spec args st :
  Main.handle_flags args st
  = if existsb Main.is_help args then None
    else Some {|
      Main.read_flag := Main.read_flag st || existsb Main.is_r args;
      Main.write_flag := Main.write_flag st || existsb Main.is_w args;
      Main.force_flag := Main.force_flag st || existsb Main.is_f args;
      Main.png_filename_in :=
        Main.last_arg Main.arg_i args (Main.png_filename_in st);
      Main.png_filename_out :=
        Main.last_arg Main.arg_o args (Main.png_filename_out st);
      Main.data_filename :=
        Main.last_arg Main.arg_d args (Main.data_filename st) |}.
Proof.
  revert st. induction args as [|arg args IH]; intros st.
  - destruct st; simpl. by rewrite !orb_false_r.
  - destruct arg; simpl; try done; rewrite IH;
      destruct (existsb Main.is_help args); simpl; try done;
      by rewrite ?orb_true_r.
Qed.

Lemma main_spec args :
  Main.main args
  = if existsb Main.is_help args then Main.usage_exit
    else Main.dispatch {|
      Main.read_flag := existsb Main.is_r args;
      Main.write_flag := existsb Main.is_w args;
      Main.force_flag := existsb Main.is_f args;
      Main.png_filename_in := Main.last_arg Main.arg_i args None;
      Main.png_filename_out := Main.last_arg Main.arg_o args None;
      Main.data_filename := Main.last_arg Main.arg_d args None |}.
Proof.
  unfold Main.main. rewrite handle_flags_spec.
  by destruct (existsb Main.is_help args).
Qed.

(** X11.  [main] calls [read_data] exactly when the command line has no
    [-h] and no option [getopt] rejects, has [-r] and no [-w], names an
    input picture with [-i], and has neither [-d] nor [-o]; the picture
    passed is the argument of the last [-i], and the force flag is set
    exactly when [-f] occurs. *)
Theorem main_calls_read_data args png_in force :
  Main.main args = Main.call_read_data png_in force
  ↔ existsb Main.is_help args = false
    ∧ existsb Main.is_r args = true
    ∧ existsb Main.is_w args = false
    ∧ Main.last_arg Main.arg_i args None = Some png_in
    ∧ Main.last_arg Main.arg_d args None = None
    ∧ Main.last_arg Main.arg_o args None = None
    ∧ force = existsb Main.is_f args.
Proof.
  rewrite main_spec. unfold Main.dispatch. simpl.
  destruct (existsb Main.is_help args), (existsb Main.is_r args),
    (existsb Main.is_w args), (Main.last_arg Main.arg_i args None),
    (Main.last_arg Main.arg_d args None), (Main.last_arg Main.arg_o args None);
    simpl; split; intros H; try done; try (by destruct_and!);
    try (injection H as <- <-; done);
    destruct H as (_ & _ & _ & [= ->] & _ & _ & ->); done.
Qed.

(** X12.  [main] calls [write_data] exactly when the command line has
    no [-h] and no option [getopt] rejects, has [-w] and no [-r], and
    has each of [-i], [-o] and [-d]; the names passed are the arguments
    of the last [-i], the last [-o] and the last [-d], and the force
    flag is set exactly when [-f] occurs. *)
Theorem main_calls_write_data args png_in png_out data force :
  Main.main args = Main.call_write_data png_in png_out data force
  ↔ existsb Main.is_help args = false
    ∧ existsb Main.is_r args = false
    ∧ existsb Main.is_w args = true
    ∧ Main.last_arg Main.arg_i args None = Some png_in
    ∧ Main.last_arg Main.arg_o args None = Some png_out
    ∧ Main.last_arg Main.arg_d args None = Some data
    ∧ force = existsb Main.is_f args.
Proof.
  rewrite main_spec. unfold Main.dispatch. simpl.
  destruct (existsb Main.is_help args), (existsb Main.is_r args),
    (existsb Main.is_w args), (Main.last_arg Main.arg_i args None),
    (Main.last_arg Main.arg_d args None), (Main.last_arg Main.arg_o args None);
    simpl; split; intros H; try done; try (by destruct_and!);
    try (injection H as <- <- <- <-; done);
    destruct H as (_ & _ & _ & [= ->] & [= ->] & [= ->] & ->); done.
Qed.

(** ** What write_data leaves of the picture *)

Lemma store_shape rows y idx v : length <$> store rows y idx v = length <$> rows.
Proof.
  unfold store. generalize (Z.to_nat y) as r.
  induction rows as [|row rows IH]; intros [|r]; csimpl; try done.
  - by rewrite length_insert.
  - by rewrite IH.
Qed.

Lemma store_bytes rows y idx v :
  is_byte v → Forall (Forall is_byte) rows →
  Forall (Forall is_byte) (store rows y idx v).
Proof.
  intros Hv Hrows. unfold store. apply Forall_alter; [done|].
  intros row _ Hrow. by apply Forall_insert.
Qed.

Lemma load_byte rows y idx p :
  Forall (Forall is_byte) rows → load rows y idx = Some p → is_byte p.
Proof.
  intros Hrows. unfold load, sample.
  destruct (rows !! Z.to_nat y) as [row|] eqn:Hrow; simpl; [|done].
  intros Hp. eapply Forall_lookup_1; [|exact Hp].
  eapply Forall_lookup_1; [exact Hrows|exact Hrow].
Qed.

Lemma even_offset i : i mod 2 = 0 → 0 <= 6 - i mod 8.
Proof. intros H. destruct (even_mod8 i H) as [|[|[|]]]; lia. Qed.

Lemma stream_loop_shape img stream (n : nat) i rows rows' :
  i mod 2 = 0 →
  for_steps n i (stream_body img stream) rows = Done rows' →
  length <$> rows' = length <$> rows
  ∧ (Forall (Forall is_byte) rows → Forall (Forall is_byte) rows').
Proof.
  revert i rows. induction n as [|n IH]; intros i rows Hi Hrun.
  - simpl in Hrun. by injection Hrun as <-.
  - apply for_steps_S_Done in Hrun as (rows1 & Hbody & Hrest).
    apply stream_body_Done in Hbody as (y & idx & p & b & _ & Hp & _ & ->).
    destruct (IH _ _ (even_add2 i Hi) Hrest) as [Hshape Hbytes]. split.
    + by rewrite Hshape, store_shape.
    + intros Hrows. apply Hbytes, store_bytes; [|done].
      apply stored_byte; [by eapply load_byte|].
      by apply data_chunk_range, even_offset.
Qed.

Lemma sample_shape rows rows' r c :
  length <$> rows' = length <$> rows →
  is_Some (sample rows' r c) ↔ is_Some (sample rows r c).
Proof.
  intros Hshape. pose proof (f_equal (.!! r) Hshape) as Hr.
  rewrite !list_lookup_fmap in Hr. unfold sample.
  destruct (rows' !! r) as [row'|], (rows !! r) as [row|]; simpl in *; try done.
  injection Hr as Hr. by rewrite !lookup_lt_is_Some, Hr.
Qed.

Lemma rows_ext rows1 rows2 :
  length <$> rows1 = length <$> rows2 →
  (∀ r c, sample rows1 r c = sample rows2 r c) → rows1 = rows2.
Proof.
  intros Hshape Hsame. apply list_eq. intros r.
  pose proof (f_equal (.!! r) Hshape) as Hr.
  rewrite !list_lookup_fmap in Hr.
  destruct (rows1 !! r) as [row1|] eqn:H1, (rows2 !! r) as [row2|] eqn:H2;
    simpl in Hr; try done.
  f_equal. apply list_eq. intros c.
  specialize (Hsame r c). unfold sample in Hsame. by rewrite H1, H2 in Hsame.
Qed.

Lemma addressed_dec img (n r c : nat) :
  (∃ k : nat, (k < n)%nat
     ∧ sample_address img (2 * Z.of_nat k) = Some (Z.of_nat r, Z.of_nat c))
  ∨ (∀ k : nat, (k < n)%nat →
       sample_address img (2 * Z.of_nat k) ≠ Some (Z.of_nat r, Z.of_nat c)).
Proof.
  induction n as [|n [(k & Hk & Hadr)|Hno]].
  - right. intros k Hk. lia.
  - left. exists k. split; [lia|done].
  - destruct (decide (sample_address img (2 * Z.of_nat n)
                      = Some (Z.of_nat r, Z.of_nat c))) as [Hadr|Hadr].
    + left. exists n. split; [lia|done].
    + right. intros k Hk. destruct (decide (k = n)) as [->|]; [done|].
      apply Hno. lia.
Qed.

Lemma stream_loop_high img stream (n : nat) rows rows' (r c : nat) :
  for_steps n 0 (stream_body img stream) rows = Done rows' →
  (λ p, Z.land p 252) <$> sample rows' r c
  = (λ p, Z.land p 252) <$> sample rows r c.
Proof.
  intros Hrun.
  destruct (stream_loop_effect img stream n 0 rows rows' ltac:(lia) eq_refl Hrun)
    as [Hout Hin].
  destruct (addressed_dec img n r c) as [(k & Hk & Hadr)|Hno].
  - destruct (Hin k Hk) as (y & idx & p & b & Hadr' & Hp & _ & Hp').
    replace (0 + 2 * Z.of_nat k) with (2 * Z.of_nat k) in * by lia.
    rewrite Hadr in Hadr'. injection Hadr' as <- <-.
    unfold load in Hp, Hp'. rewrite !Nat2Z.id in Hp, Hp'.
    rewrite Hp, Hp'. simpl. f_equal.
    apply stored_high, data_chunk_range, even_offset.
    by rewrite Z.mul_comm, Z_mod_mult.
  - rewrite Hout; [done|]. intros k Hk.
    replace (0 + 2 * Z.of_nat k) with (2 * Z.of_nat k) by lia. by apply Hno.
Qed.

(** X13.  A completed [write_data] keeps the picture what
    [read_png_file] made it: the same width, height and colour type,
    rows of the same lengths, and, when every sample was a byte, every
    sample still a byte; so a well-formed picture stays well-formed. *)
Theorem write_data_keeps_picture_well_formed img data_filename file img' :
  write_data img data_filename file = Done img' →
  width img' = width img ∧ height img' = height img
  ∧ color_type img' = color_type img
  ∧ length <$> row_pointers img' = length <$> row_pointers img
  ∧ (png_ok img → png_ok img').
Proof.
  intros (rows' & -> & Hrun)%write_data_Done.
  destruct (stream_loop_shape _ _ _ 0 _ _ eq_refl Hrun) as [Hshape Hbytes].
  split_and!; try done.
  intros [Hw Hh Hrows Hrb Hs Hm]. split; simpl; try done.
  - rewrite <- Hrows.
    by rewrite <- (length_fmap length rows'), Hshape, length_fmap.
  - apply (Forall_fmap length
      (λ l, Z.of_nat l = width img * pixel_stride (color_type img))).
    rewrite Hshape. by apply Forall_fmap.
  - by apply Hbytes.
Qed.

Lemma write_data_keeps_picture_well_formed_witness :
  ∃ img', write_data rgba_4x4 name_a payload_hi = Done img' ∧ png_ok img'.
Proof.
  eexists. split; [vm_compute; reflexivity|].
  apply (write_data_keeps_picture_well_formed rgba_4x4 name_a payload_hi);
    [vm_compute; reflexivity | exact png_ok_rgba_4x4].
Defined.

(** X14.  A completed [write_data] changes no bit above the two low
    ones, in any sample of the picture, addressed or not: every sample
    keeps its six high bits. *)
Theorem write_data_keeps_high_bits_everywhere img data_filename file img' (r c : nat) :
  write_data img data_filename file = Done img' →
  (λ p, Z.land p 252) <$> sample (row_pointers img') r c
  = (λ p, Z.land p 252) <$> sample (row_pointers img) r c.
Proof.
  intros (rows' & -> & Hrun)%write_data_Done. simpl.
  by eapply stream_loop_high.
Qed.

Lemma write_data_keeps_high_bits_everywhere_witness :
  ∃ img', write_data rgba_4x4 name_a payload_hi = Done img'
    ∧ (λ p, Z.land p 252) <$> sample (row_pointers img') 0 1
      = (λ p, Z.land p 252) <$> sample (row_pointers rgba_4x4) 0 1.
Proof.
  eexists. split; [vm_compute; reflexivity|].
  apply (write_data_keeps_high_bits_everywhere rgba_4x4 name_a payload_hi).
  vm_compute. reflexivity.
Defined.

(** ** Embedding into a picture that already carries a stream *)

Lemma stream_body_with_rows img rows0 stream i rows :
  stream_body (with_rows img rows0) stream i rows = stream_body img stream i rows.
Proof. unfold stream_body, embed_chunk. by rewrite sample_address_with_rows. Qed.

Lemma reembed img name1 file1 name2 file2 img1 img2 :
  write_data img name1 file1 = Done img1 →
  write_data img name2 file2 = Done img2 →
  (chunks_written name1 file1 <= chunks_written name2 file2)%nat →
  write_data img1 name2 file2 = Done img2.
Proof.
  intros (rows1 & -> & Hrun1)%write_data_Done H2 Hle.
  pose proof H2 as (rows2 & -> & Hrun2)%write_data_Done.
  rewrite write_data_stream in H2 |- *.
  change (max_data_bits (with_rows img rows1)) with (max_data_bits img).
  destruct (max_data_bits img <? required_data_bits name2 file2); [done|].
  clear H2. simpl row_pointers.
  rewrite (for_steps_ext _ _ _ (stream_body img (embedded_stream name2 file2)))
    by (intros; apply stream_body_with_rows).
  set (stream := embedded_stream name2 file2) in *.
  set (n := chunks_written name2 file2) in *.
  destruct (stream_loop_shape _ _ _ 0 _ _ eq_refl Hrun1) as [Hshape1 _].
  destruct (stream_loop_shape _ _ _ 0 _ _ eq_refl Hrun2) as [Hshape2 _].
  destruct (stream_loop_effect img _ _ 0 _ _ ltac:(lia) eq_refl Hrun1) as [Hout1 _].
  destruct (stream_loop_effect img _ _ 0 _ _ ltac:(lia) eq_refl Hrun2) as [Hout2 Hin2].
  destruct (stream_loop_runs img stream n 0 rows1) as [rows3 Hrun3].
  - lia.
  - pose proof (chunks_written_bound name2 file2). unfold n, stream. lia.
  - intros k Hk.
    destruct (Hin2 k Hk) as (y & idx & p & _ & Hadr & Hp & _).
    exists y, idx. split; [done|].
    apply (sample_shape _ _ _ _ Hshape1). unfold load in Hp. by rewrite Hp.
  - rewrite Hrun3. simpl. unfold with_rows. simpl. do 2 f_equal.
    destruct (stream_loop_shape _ _ _ 0 _ _ eq_refl Hrun3) as [Hshape3 _].
    destruct (stream_loop_effect img _ _ 0 _ _ ltac:(lia) eq_refl Hrun3)
      as [Hout3 Hin3].
    apply rows_ext; [congruence|]. intros r c.
    destruct (addressed_dec img n r c) as [(k & Hk & Hadr)|Hno].
    + destruct (Hin2 k Hk) as (y & idx & p & b & Hadr2 & Hp & Hb & Hp2).
      destruct (Hin3 k Hk) as (y3 & idx3 & p1 & b3 & Hadr3 & Hp1 & Hb3 & Hp3).
      replace (0 + 2 * Z.of_nat k) with (2 * Z.of_nat k) in * by lia.
      rewrite Hadr in Hadr2, Hadr3.
      injection Hadr2 as <- <-. injection Hadr3 as <- <-.
      rewrite Hb in Hb3. injection Hb3 as <-.
      unfold load in Hp, Hp1, Hp2, Hp3. rewrite !Nat2Z.id in Hp, Hp1, Hp2, Hp3.
      pose proof (stream_loop_high _ _ _ _ _ r c Hrun1) as Hhigh.
      rewrite Hp, Hp1 in Hhigh. injection Hhigh as Hhigh.
      by rewrite Hp2, Hp3, Hhigh.
    + assert (∀ k : nat, (k < n)%nat →
        sample_address img (0 + 2 * Z.of_nat k) ≠ Some (Z.of_nat r, Z.of_nat c))
        as Hno'.
      { intros k Hk. replace (0 + 2 * Z.of_nat k) with (2 * Z.of_nat k) by lia.
        by apply Hno. }
      rewrite (Hout3 r c Hno'), (Hout2 r c Hno').
      apply Hout1. intros k Hk. apply Hno'. lia.
Qed.

(** X15.  Embedding a second stream into the result of a first
    embedding gives, sample for sample, the picture that embedding the
    second stream into the original picture gives, when the second
    stream takes at least as many slots as the first: nothing of the
    first stream is left. *)
Theorem second_embedding_erases_first img name1 file1 name2 file2 img1 img2 :
  write_data img name1 file1 = Done img1 →
  write_data img name2 file2 = Done img2 →
  (chunks_written name1 file1 <= chunks_written name2 file2)%nat →
  write_data img1 name2 file2 = Done img2.
Proof. apply reembed. Qed.

Lemma second_embedding_erases_first_witness :
  ∃ img1 img2,
    write_data rgb_4x4 name_b payload_x = Done img1
    ∧ img1 ≠ rgb_4x4
    ∧ write_data rgb_4x4 name_a payload_hi = Done img2
    ∧ img1 ≠ img2
    ∧ (chunks_written name_b payload_x <= chunks_written name_a payload_hi)%nat
    ∧ write_data img1 name_a payload_hi = Done img2.
Proof.
  eexists _, _. split; [vm_compute; reflexivity|].
  split; [vm_compute; discriminate|].
  split; [vm_compute; reflexivity|].
  split; [vm_compute; discriminate|].
  split; [vm_compute; lia|].
  apply (second_embedding_erases_first rgb_4x4 name_b payload_x name_a payload_hi);
    [vm_compute; reflexivity | vm_compute; reflexivity | vm_compute; lia].
Defined.

(** X16.  [write_data] is idempotent: embedding the same file under the
    same name into the result of a completed [write_data] completes and
    changes nothing. *)
Theorem write_data_idempotent img data_filename file img' :
  write_data img data_filename file = Done img' →
  write_data img' data_filename file = Done img'.
Proof. intros H. by apply (reembed img data_filename file data_filename file). Qed.

Lemma write_data_idempotent_witness :
  ∃ img', write_data rgba_4x4 name_a payload_hi = Done img'
          ∧ write_data img' name_a payload_hi = Done img'.
Proof.
  eexists. split; [vm_compute; reflexivity|].
  apply (write_data_idempotent rgba_4x4 name_a payload_hi).
  vm_compute. reflexivity.
Defined.

(** ** read_data within the capacity of the picture *)

Lemma read_chunk_runs img i :
  png_ok img → 0 <= i < width img * height img * 6 →
  ∃ c, read_chunk img i = Done c ∧ 0 <= c < 4.
Proof.
  intros Hok Hi.
  destruct (png_ok_load img i Hok Hi) as (y & idx & Hadr & [p Hp]).
  assert (read_chunk img i = Done (Z.land p 3)) as Hc.
  { unfold read_chunk. rewrite Hadr. simpl. by rewrite Hp. }
  exists (Z.land p 3). split; [done|]. by eapply read_chunk_range.
Qed.

Lemma chunks_byte c0 c1 c2 c3 :
  0 <= c0 < 4 → 0 <= c1 < 4 → 0 <= c2 < 4 → 0 <= c3 < 4 →
  let b := c0 * 64 + c1 * 16 + c2 * 4 + c3 in
  is_byte b
  ∧ data_chunk b (6 - 2 * 0) = c0 ∧ data_chunk b (6 - 2 * 1) = c1
  ∧ data_chunk b (6 - 2 * 2) = c2 ∧ data_chunk b (6 - 2 * 3) = c3.
Proof.
  intros H0 H1 H2 H3 b. subst b. split; [unfold is_byte; lia|].
  assert (c0 = 0 ∨ c0 = 1 ∨ c0 = 2 ∨ c0 = 3) as [->|[->|[->| ->]]] by lia;
  assert (c1 = 0 ∨ c1 = 1 ∨ c1 = 2 ∨ c1 = 3) as [->|[->|[->| ->]]] by lia;
  assert (c2 = 0 ∨ c2 = 1 ∨ c2 = 2 ∨ c2 = 3) as [->|[->|[->| ->]]] by lia;
  assert (c3 = 0 ∨ c3 = 1 ∨ c3 = 2 ∨ c3 = 3) as [->|[->|[->| ->]]] by lia;
  vm_compute; repeat split; reflexivity.
Qed.

(** The low bits of a well-formed picture always spell some byte
    stream, as far as the capacity goes. *)
Lemma carried_exists img (n : nat) :
  png_ok img → 8 * Z.of_nat n <= width img * height img * 6 →
  ∃ s, length s = n ∧ Forall is_byte s ∧ carries img s (4 * n).
Proof.
  intros Hok. induction n as [|n IH]; intros Hcap.
  - exists []. split; [done|]. split; [constructor|]. intros k Hk. lia.
  - destruct IH as (s & Hlen & Hbytes & Hcar); [lia|].
    destruct (read_chunk_runs img (8 * Z.of_nat n + 2 * 0) Hok ltac:(lia))
      as (c0 & E0 & R0).
    destruct (read_chunk_runs img (8 * Z.of_nat n + 2 * 1) Hok ltac:(lia))
      as (c1 & E1 & R1).
    destruct (read_chunk_runs img (8 * Z.of_nat n + 2 * 2) Hok ltac:(lia))
      as (c2 & E2 & R2).
    destruct (read_chunk_runs img (8 * Z.of_nat n + 2 * 3) Hok ltac:(lia))
      as (c3 & E3 & R3).
    destruct (chunks_byte c0 c1 c2 c3 R0 R1 R2 R3) as (Hb & D0 & D1 & D2 & D3).
    set (b := c0 * 64 + c1 * 16 + c2 * 4 + c3) in *.
    exists (s ++ [b]). split; [rewrite length_app; simpl; lia|].
    split; [apply Forall_app; split; [done|by constructor]|].
    intros k Hk. destruct (decide (k < 4 * n)%nat) as [Hlt|Hge].
    + destruct (Hcar k Hlt) as (b' & Hb' & Hread). exists b'. split; [|done].
      rewrite lookup_app_l; [done|]. by apply lookup_lt_Some in Hb'.
    + assert (∃ j : Z, 0 <= j < 4 ∧ 2 * Z.of_nat k = 8 * Z.of_nat n + 2 * j)
        as (j & Hj & ->).
      { exists (Z.of_nat k - 4 * Z.of_nat n). lia. }
      destruct (position_in_byte (Z.of_nat n) (2 * j) ltac:(lia)) as [Hq Hm].
      rewrite Hq, Hm. exists b. split.
      { rewrite Nat2Z.id, lookup_app_r by lia. by rewrite Hlen, Nat.sub_diag. }
      assert (j = 0 ∨ j = 1 ∨ j = 2 ∨ j = 3) as [->|[->|[->| ->]]] by lia.
      * by rewrite E0, D0.
      * by rewrite E1, D1.
      * by rewrite E2, D2.
      * by rewrite E3, D3.
Qed.

(** A header loop over four carried bytes returns the number they are
    the big-endian bytes of. *)
Lemma size_loop_carried img s n (b0 : nat) a b c d :
  carries img s n → (4 * (b0 + 4) <= n)%nat →
  is_byte a → is_byte b → is_byte c → is_byte d →
  (∀ j, (j < 4)%nat → s !! (b0 + j)%nat = [a; b; c; d] !! j) →
  ∃ v, for_steps 16 (8 * Z.of_nat b0)
         (size_body img (8 * Z.of_nat b0 + 32)) 0 = Done v
       ∧ 0 <= v < 2 ^ 32 ∧ be32 v = [a; b; c; d].
Proof.
  intros Hcar Hn Ha Hb Hc Hd Hlook.
  assert ((8 * Z.of_nat b0) mod 8 = 0) as Hmod by (by rewrite Z.mul_comm, Z_mod_mult).
  pose proof (size_loop_bytes img (8 * Z.of_nat b0) 0 Hmod ltac:(lia)) as H1.
  change (be32 0) with ([] ++ [0; 0; 0; 0]) in H1.
  assert (Forall is_byte [a; b; c; d]) as Hall.
  { repeat (apply Forall_cons_2; [done|]). apply Forall_nil_2. }
  pose proof (byte_loop_carried img s n [0; 0; 0; 0] Hcar [] b0 [a; b; c; d]
    eq_refl Hlook Hall Hn) as B1.
  change (for_steps (4 * length [0; 0; 0; 0]))
    with (@for_steps (list Z * Z) 16) in B1.
  change (Z.of_nat (length [])) with 0 in B1.
  rewrite B1 in H1.
  destruct (for_steps 16 (8 * Z.of_nat b0) (size_body img (8 * Z.of_nat b0 + 32)) 0)
    as [v| |]; simpl in H1; [|done..].
  destruct H1 as [Hv Hbe]. exists v. split; [done|]. split; [done|].
  rewrite <- Hbe. reflexivity.
Qed.

Lemma header_carried img n a0 a1 a2 a3 a4 a5 a6 a7 rest :
  carries img (a0 :: a1 :: a2 :: a3 :: a4 :: a5 :: a6 :: a7 :: rest) n →
  (32 <= n)%nat →
  Forall is_byte (a0 :: a1 :: a2 :: a3 :: a4 :: a5 :: a6 :: a7 :: rest) →
  ∃ fl pl,
    for_loop 0 SIG_SIZE_BITS (size_body img SIG_SIZE_BITS) 0 = Done fl
    ∧ for_loop SIG_SIZE_BITS (SIG_SIZE_BITS * 2)
        (size_body img (SIG_SIZE_BITS * 2)) 0 = Done pl
    ∧ 0 <= fl < 2 ^ 32 ∧ 0 <= pl < 2 ^ 32
    ∧ be32 fl = [a0; a1; a2; a3] ∧ be32 pl = [a4; a5; a6; a7].
Proof.
  intros Hcar Hn Hbytes.
  repeat (apply Forall_cons in Hbytes as [? Hbytes]).
  destruct (size_loop_carried img _ n 0 a0 a1 a2 a3 Hcar) as (fl & Hfl & Rfl & Bfl);
    [lia | done.. | |].
  { intros [|[|[|[|j]]]] Hj; try done; lia. }
  destruct (size_loop_carried img _ n 4 a4 a5 a6 a7 Hcar) as (pl & Hpl & Rpl & Bpl);
    [lia | done.. | |].
  { intros [|[|[|[|j]]]] Hj; try done; lia. }
  exists fl, pl. unfold for_loop, SIG_SIZE_BITS.
  change (trip_count 0 32) with 16%nat. change (trip_count 32 (32 * 2)) with 16%nat.
  split; [exact Hfl|]. split; [exact Hpl|]. done.
Qed.

(** X17.  What [read_data] does with an arbitrary well-formed picture
    of at least 64 bits capacity: the two header loops complete, with
    lengths below 2^32; and when the stream those lengths announce is
    within the capacity and shorter than 2^32 bits, [read_data]
    completes without leaving the picture, with a file name buffer and a
    data buffer of the announced lengths, each the memory [malloc]
    handed out or-ed with bytes that depend on the picture only. *)
Theorem read_data_within_capacity img :
  png_ok img → 64 <= width img * height img * 6 →
  ∃ fl pl,
    for_loop 0 SIG_SIZE_BITS (size_body img SIG_SIZE_BITS) 0 = Done fl
    ∧ for_loop SIG_SIZE_BITS (SIG_SIZE_BITS * 2)
        (size_body img (SIG_SIZE_BITS * 2)) 0 = Done pl
    ∧ 0 <= fl < 2 ^ 32 ∧ 0 <= pl < 2 ^ 32
    ∧ ((8 + fl + pl) * 8 <= width img * height img * 6 →
       (8 + fl + pl) * 8 < 2 ^ 32 →
       ∃ name data,
         Z.of_nat (length name) = fl ∧ Z.of_nat (length data) = pl
         ∧ Forall is_byte name ∧ Forall is_byte data
         ∧ ∀ name_mem data_mem,
             read_data img name_mem data_mem
             = Done (or_into (malloc name_mem fl) name,
                     or_into (malloc data_mem pl) data)).
Proof.
  intros Hok Hcap.
  destruct (carried_exists img 8 Hok ltac:(lia)) as (s8 & Hlen8 & Hb8 & Hcar8).
  do 8 (destruct s8 as [|? s8]; [done|]).
  destruct (header_carried img _ _ _ _ _ _ _ _ _ _ Hcar8 ltac:(lia) Hb8)
    as (fl & pl & Hfl & Hpl & Rfl & Rpl & _ & _).
  exists fl, pl. do 4 (split; [done|]).
  intros Hfit Hno.
  destruct (carried_exists img (8 + Z.to_nat fl + Z.to_nat pl) Hok ltac:(lia))
    as (s & Hlen & Hbytes & Hcar).
  do 8 (destruct s as [|? s]; [done|]).
  destruct (header_carried img _ _ _ _ _ _ _ _ _ _ Hcar ltac:(lia) Hbytes)
    as (fl' & pl' & Hfl' & Hpl' & _ & _ & Bfl & Bpl).
  rewrite Hfl in Hfl'. injection Hfl' as <-.
  rewrite Hpl in Hpl'. injection Hpl' as <-.
  simpl in Hlen.
  assert (length s = (Z.to_nat fl + Z.to_nat pl)%nat) as Hrest by lia.
  assert (Forall is_byte s) as Hs.
  { by do 8 (apply Forall_cons in Hbytes as [_ Hbytes]). }
  set (name := take (Z.to_nat fl) s). set (data := drop (Z.to_nat fl) s).
  assert (length name = Z.to_nat fl) as Lname by (unfold name; rewrite length_take; lia).
  assert (length data = Z.to_nat pl) as Ldata by (unfold data; rewrite length_drop; lia).
  exists name, data. split_and!.
  - lia.
  - lia.
  - by apply Forall_take.
  - by apply Forall_drop.
  - intros name_mem data_mem.
    replace fl with (Z.of_nat (length name)) at 1 by lia.
    replace pl with (Z.of_nat (length data)) at 1 by lia.
    apply read_data_serialized; [by apply Forall_take | by apply Forall_drop | lia |].
    unfold serialized.
    replace (Z.of_nat (length name)) with fl by lia.
    replace (Z.of_nat (length data)) with pl by lia.
    rewrite Bfl, Bpl. simpl app. unfold name, data. rewrite take_drop.
    replace (4 * (8 + length (take (Z.to_nat fl) s) + length (drop (Z.to_nat fl) s)))%nat
      with (4 * (8 + Z.to_nat fl + Z.to_nat pl))%nat; [done|].
    fold name data. lia.
Qed.

Lemma read_data_within_capacity_witness :
  ∃ fl pl,
    for_loop 0 SIG_SIZE_BITS (size_body rgba_4x4 SIG_SIZE_BITS) 0 = Done fl
    ∧ for_loop SIG_SIZE_BITS (SIG_SIZE_BITS * 2)
        (size_body rgba_4x4 (SIG_SIZE_BITS * 2)) 0 = Done pl
    ∧ 0 <= fl < 2 ^ 32 ∧ 0 <= pl < 2 ^ 32.
Proof.
  destruct (read_data_within_capacity rgba_4x4 png_ok_rgba_4x4
    ltac:(vm_compute; discriminate)) as (fl & pl & Hfl & Hpl & Rfl & Rpl & _).
  by exists fl, pl.
Defined.

(** ** What extraction depends on in the picture *)

(** X18.  For the same contents of the memory [malloc] hands out,
    [read_data] depends on the picture only through its dimensions, its
    colour type and the two low bits of the usable (non-alpha) samples:
    two pictures that agree on those give the same result; in
    particular, overwriting a sample by a value with the same two low
    bits, or overwriting a fourth-channel sample by anything, does not
    change the result. *)
Theorem extract_depends_on_low_bits_only img1 name_mem data_mem :
  (∀ img2, agree_low2 img1 img2 →
     read_data img1 name_mem data_mem = read_data img2 name_mem data_mem)
  ∧ (∀ y idx p v,
       0 <= y → 0 <= idx →
       load (row_pointers img1) y idx = Some p →
       Z.land v 3 = Z.land p 3
       ∨ (color_type img1 = PNG_COLOR_TYPE_RGBA ∧ idx mod 4 = 3) →
       read_data (with_rows img1 (store (row_pointers img1) y idx v)) name_mem data_mem
       = read_data img1 name_mem data_mem).
Proof.
  split.
  - intros img2 Hagree. by apply read_data_agree.
  - intros y idx p v Hy Hidx Hp Hsame.
    apply read_data_agree. by eapply store_agree_low2.
Qed.

Lemma extract_depends_on_low_bits_only_witness :
  agree_low2 (embedded_a_hi rgb_4x4) (embedded_a_hi rgb_4x4_light)
  ∧ read_data (embedded_a_hi rgb_4x4) stale stale = Done ([101], [108; 109])
  ∧ read_data (embedded_a_hi rgb_4x4) stale stale
    = read_data (embedded_a_hi rgb_4x4_light) stale stale.
Proof.
  split; [exact carriers_agree|]. split; [vm_compute; reflexivity|].
  apply (proj1 (extract_depends_on_low_bits_only (embedded_a_hi rgb_4x4) stale stale)).
  exact carriers_agree.
Defined.
